(** * Terminal Paint: canvas, cursor and persistence

    A shallow embedding of [terminal_paint.c]: the canvas operations
    ([find_spot], [paint_stuff], [start_with_blank_canvas], [move_brush])
    and the file operations ([save_masterpiece], [load_masterpiece]),
    together with the properties of the canvas data model and of the
    load/save overlay protocol.

    The curses calls ([attrset], [mvaddch], [printw], ...) only write to the
    terminal; the terminal is not part of the modelled state, so
    [render_stuff], [paint_entire_canvas] and [show_or_hide_cursor] leave
    the state below untouched and are not represented. *)

From Stdlib Require Import ZArith List String Ascii Bool Lia.
From stdpp Require Import base list.

Local Open Scope Z_scope.

(** ** Machine integers *)

Module CInt.

(** Two's complement wrap-around of a [bits]-wide signed integer. *)
Definition wrap_signed (bits z : Z) : Z :=
  (z + 2 ^ (bits - 1)) mod 2 ^ bits - 2 ^ (bits - 1).

Definition int_of (z : Z) : Z := wrap_signed 32 z.
Definition short_of (z : Z) : Z := wrap_signed 16 z.
Definition uchar_of (z : Z) : Z := z mod 256.
Definition size_t_of (z : Z) : Z := z mod 2 ^ 64.

Definition INT_MIN : Z := - 2 ^ 31.
Definition INT_MAX : Z := 2 ^ 31 - 1.
Definition LONG_MIN : Z := - 2 ^ 63.
Definition LONG_MAX : Z := 2 ^ 63 - 1.

Definition in_int (z : Z) : Prop := INT_MIN <= z <= INT_MAX.

End CInt.
Import CInt.

(** ** Constants *)

Definition MAX_CANVAS_WIDTH : Z := 1000.
Definition MAX_CANVAS_HEIGHT : Z := 1000.
Definition COLOR_COUNT : Z := 8.
Definition STATUS_LINES_TOP : Z := 2.
Definition STATUS_LINES_BOTTOM : Z := 1.
Definition EOF : Z := -1.

(** Character codes used by the program. *)
Definition SPACE : Z := 32.
Definition NEWLINE : Z := 10.
Definition COMMA : Z := 44.

(** ** Types *)

(** [Cell]: [unsigned char ch; short color]. *)
Record Cell : Type := mkCell { ch : Z; color : Z }.

Record AppState : Type := mkApp {
  canvas : list Cell;
  canvas_width : Z;
  canvas_height : Z;
  cursor_x : Z;
  cursor_y : Z;
  pen_down : bool;
  brush_index : Z;
  current_color : Z;
  running : bool
}.

(** The two mutable globals of the program: [g_app] and [brush_chars]. *)
Record Globals : Type := mkGlobals {
  g_app : AppState;
  brush_chars : list Z
}.

Definition original_brush_chars : list Z :=
  [35; 42; 64; 37; 43; 111; 120; 46; 126; 38].

Definition with_canvas (g : Globals) (c : list Cell) : Globals :=
  let a := g_app g in
  mkGlobals
    (mkApp c (canvas_width a) (canvas_height a) (cursor_x a) (cursor_y a)
           (pen_down a) (brush_index a) (current_color a) (running a))
    (brush_chars g).

Definition with_cursor (g : Globals) (x y : Z) : Globals :=
  let a := g_app g in
  mkGlobals
    (mkApp (canvas a) (canvas_width a) (canvas_height a) x y
           (pen_down a) (brush_index a) (current_color a) (running a))
    (brush_chars g).

(** ** Memory: a [Cell *] is an element offset into a buffer *)

Definition in_buffer (buf : list Cell) (p : Z) : Prop :=
  0 <= p < Z.of_nat (length buf).

(** Contents of freshly allocated memory and of reads outside a buffer. *)
Definition garbage : Cell := mkCell 0 0.

Definition deref (buf : list Cell) (p : Z) : Cell :=
  if p <? 0 then garbage else default garbage (buf !! Z.to_nat p).

Definition store (buf : list Cell) (p : Z) (c : Cell) : list Cell :=
  if p <? 0 then buf else <[Z.to_nat p := c]> buf.

(** ** Loops *)

(** [for (i = start; i < start + n && guard; ++i) body], run for at most
    [n] iterations; the guard is tested before each one. *)
Fixpoint for_loop {St : Type} (n : nat) (i : Z) (guard : St -> bool)
    (body : Z -> St -> St) (s : St) : St :=
  match n with
  | O => s
  | S n' => if guard s then for_loop n' (i + 1) guard body (body i s) else s
  end.

(** [for (i = 0; i < bound && guard; ++i) body]. *)
Definition for_upto {St : Type} (bound : Z) (guard : St -> bool)
    (body : Z -> St -> St) (s : St) : St :=
  for_loop (Z.to_nat bound) 0 guard body s.

Definition always {St : Type} (_ : St) : bool := true.

(** ** Canvas operations *)

Definition check_if_coordinates_make_sense (g : Globals) (x y : Z) : bool :=
  (0 <=? x) && (x <? canvas_width (g_app g)) &&
  (0 <=? y) && (y <? canvas_height (g_app g)).

(** The returned offset is [y * canvas_width + x], computed on [int]. *)
Definition find_spot (g : Globals) (x y : Z) : option Z :=
  if negb (check_if_coordinates_make_sense g x y) then None
  else Some (int_of (int_of (y * canvas_width (g_app g)) + x)).

Definition paint_stuff (g : Globals) : Globals :=
  match find_spot g (cursor_x (g_app g)) (cursor_y (g_app g)) with
  | None => g
  | Some cell =>
      let glyph := nth (Z.to_nat (brush_index (g_app g))) (brush_chars g) 0 in
      with_canvas g
        (store (canvas (g_app g)) cell
               (mkCell (uchar_of glyph) (current_color (g_app g))))
  end.

Definition start_with_blank_canvas (g : Globals) : Globals :=
  let total_cells :=
    size_t_of (size_t_of (canvas_width (g_app g)) *
               size_t_of (canvas_height (g_app g))) in
  with_canvas g
    (for_upto total_cells always
       (fun i buf => store buf i (mkCell SPACE (current_color (g_app g))))
       (canvas (g_app g))).

Definition move_brush (dx dy : Z) (g : Globals) : Globals :=
  let a := g_app g in
  let new_x := int_of (cursor_x a + dx) in
  let new_y := int_of (cursor_y a + dy) in
  let new_x := if new_x <? 0 then 0 else new_x in
  let new_x := if new_x >=? canvas_width a then int_of (canvas_width a - 1) else new_x in
  let new_y := if new_y <? 0 then 0 else new_y in
  let new_y := if new_y >=? canvas_height a then int_of (canvas_height a - 1) else new_y in
  if negb (new_x =? cursor_x a) || negb (new_y =? cursor_y a) then
    let g1 := with_cursor g new_x new_y in
    if pen_down a then paint_stuff g1 else g1
  else g.

(** ** Initialization *)

(** [canvas_fit] for a terminal of [COLS] columns and [LINES] lines.
    [malloc_ok] tells whether [malloc] gives the memory asked for.  The
    second component of the result tells whether [g_app.canvas] is not
    null; a null canvas has no cells. *)
Definition canvas_fit (COLS LINES : Z) (malloc_ok : bool) (g : Globals)
    : Globals * bool :=
  let a := g_app g in
  let available_width := COLS in
  let available_height := int_of (LINES - (STATUS_LINES_TOP + STATUS_LINES_BOTTOM)) in
  let width :=
    if available_width <? MAX_CANVAS_WIDTH then available_width
    else MAX_CANVAS_WIDTH in
  let height :=
    if available_height <? MAX_CANVAS_HEIGHT then available_height
    else MAX_CANVAS_HEIGHT in
  let canvas_size := size_t_of (size_t_of width * size_t_of height) in
  let cells :=
    if malloc_ok then
      for_upto canvas_size always (fun i buf => store buf i (mkCell SPACE 7))
        (replicate (Z.to_nat canvas_size) garbage)
    else [] in
  (mkGlobals
     (mkApp cells width height (Z.quot width 2) (Z.quot height 2)
            (pen_down a) (brush_index a) (current_color a) (running a))
     (brush_chars g),
   malloc_ok).

(** [start_stuff].  [initscr_ok] tells whether [initscr] succeeds, [COLS]
    and [LINES] are the size of the terminal it reports, [malloc_ok]
    whether the canvas can be allocated.  [None] where the function
    returns [false]: [initscr] fails, the terminal is smaller than
    20 x 10, or there is no memory for the canvas.  [setup_palette] is
    called for the terminal only and its result is not looked at. *)
Definition start_stuff (initscr_ok : bool) (COLS LINES : Z) (malloc_ok : bool)
    : option Globals :=
  if negb initscr_ok then None
  else if (COLS <? 20) || (LINES <? 10) then None
  else
    let g0 := mkGlobals (mkApp [] 0 0 0 0 false 0 0 false) original_brush_chars in
    let '(g1, allocated) := canvas_fit COLS LINES malloc_ok g0 in
    if negb allocated then None
    else
      let a := g_app g1 in
      Some (mkGlobals
              (mkApp (canvas a) (canvas_width a) (canvas_height a)
                     (cursor_x a) (cursor_y a) false 0 7 true)
              (brush_chars g1)).

(** ** Standard I/O on character streams

    An input [FILE] is the list of characters not yet read; an output
    [FILE] is the list of characters written so far.  Characters are the
    [unsigned char] values [0..255] that [fgetc] returns as [int]. *)

Module Stdio.

Definition FILE : Type := list Z.

Definition fgetc (f : FILE) : Z * FILE :=
  match f with
  | [] => (EOF, [])
  | c :: rest => (c, rest)
  end.

Definition ungetc (c : Z) (f : FILE) : FILE := c :: f.

Definition fputc (c : Z) (f : FILE) : FILE := f ++ [c].

(** [isspace] and [isdigit] in the C locale. *)
Definition isspace (c : Z) : bool := (c =? 32) || ((9 <=? c) && (c <=? 13)).
Definition isdigit (c : Z) : bool := (48 <=? c) && (c <=? 57).

Fixpoint skip_space (f : FILE) : FILE :=
  match f with
  | c :: rest => if isspace c then skip_space rest else f
  | [] => []
  end.

(** The maximal run of decimal digits, accumulated most significant
    digit first. *)
Fixpoint scan_digits (f : FILE) (acc : Z) : Z * FILE :=
  match f with
  | c :: rest =>
      if isdigit c then scan_digits rest (acc * 10 + (c - 48)) else (acc, f)
  | [] => (acc, [])
  end.

(** The value [%d] stores for a numeral of value [v].  A value that fits
    in [int] is stored as it is.  For the others ISO C leaves the
    behaviour undefined; the model follows glibc on LP64, where the
    numeral goes through [strtol] (saturating at [long]) and the result
    is truncated to [int]. *)
Definition store_d (v : Z) : Z :=
  int_of (Z.max LONG_MIN (Z.min LONG_MAX v)).

Inductive conversion : Type :=
| Converted (v : Z) (rest : FILE)
| MatchingFailure (rest : FILE)
| InputFailure.

(** One [%d] directive: white space is skipped, then an optional sign
    and at least one digit are read. *)
Definition scan_d (f : FILE) : conversion :=
  match skip_space f with
  | [] => InputFailure
  | c :: rest =>
      let neg := c =? 45 in
      let digits := if (c =? 45) || (c =? 43) then rest else c :: rest in
      match digits with
      | d :: _ =>
          if isdigit d then
            let '(v, rest') := scan_digits digits 0 in
            Converted (store_d (if neg then - v else v)) rest'
          else MatchingFailure digits
      | [] => MatchingFailure []
      end
  end.

(** [fscanf(f, "%d %d", &a, &b)]: the return value, the two variables
    (unchanged where nothing was converted) and the stream. *)
Definition fscanf_d_d (f : FILE) (a b : Z) : Z * Z * Z * FILE :=
  match scan_d f with
  | InputFailure => (EOF, a, b, [])
  | MatchingFailure rest => (0, a, b, rest)
  | Converted a' f1 =>
      match scan_d (skip_space f1) with
      | Converted b' f2 => (2, a', b', f2)
      | MatchingFailure rest => (1, a', b, rest)
      | InputFailure => (1, a', b, [])
      end
  end.

(** [fscanf(f, "%d,%d", &a, &b)]: the comma must follow the first number
    at once; white space is allowed before either number. *)
Definition fscanf_d_comma_d (f : FILE) (a b : Z) : Z * Z * Z * FILE :=
  match scan_d f with
  | InputFailure => (EOF, a, b, [])
  | MatchingFailure rest => (0, a, b, rest)
  | Converted a' f1 =>
      match f1 with
      | c :: f2 =>
          if c =? COMMA then
            match scan_d f2 with
            | Converted b' f3 => (2, a', b', f3)
            | MatchingFailure rest => (1, a', b, rest)
            | InputFailure => (1, a', b, [])
            end
          else (1, a', b, f1)
      | [] => (1, a', b, [])
      end
  end.

(** Decimal digits of a non-negative number, least significant digit
    produced first and put in front of [acc]. *)
Fixpoint print_digits (fuel : nat) (n : Z) (acc : list Z) : list Z :=
  match fuel with
  | O => acc
  | S fuel' =>
      let acc' := (48 + n mod 10) :: acc in
      if n / 10 =? 0 then acc' else print_digits fuel' (n / 10) acc'
  end.

(** What [%d] prints for an [int]: at most ten digits, after a minus
    sign for a negative. *)
Definition print_d (z : Z) : list Z :=
  if z <? 0 then 45 :: print_digits 10 (- z) [] else print_digits 10 z [].

(** [fprintf(f, "%d %d\n", a, b)]. *)
Definition fprintf_d_d_nl (a b : Z) (f : FILE) : FILE :=
  f ++ print_d a ++ [SPACE] ++ print_d b ++ [NEWLINE].

(** [fprintf(f, "%d,%d", a, b)]. *)
Definition fprintf_d_comma_d (a b : Z) (f : FILE) : FILE :=
  f ++ print_d a ++ [COMMA] ++ print_d b.

(** [do { ch = fgetc(f); } while (ch != '\n' && ch != EOF);] *)
Fixpoint skip_line (f : FILE) : FILE :=
  match f with
  | [] => []
  | c :: rest => if c =? NEWLINE then rest else skip_line rest
  end.

(** The text of a string literal as a stream. *)
Definition text (s : string) : FILE :=
  map (fun a => Z.of_N (N_of_ascii a)) (list_ascii_of_string s).

End Stdio.
Import Stdio.

Definition sneak_peek_at_file (f : FILE) : Z * FILE :=
  let '(c, f1) := fgetc f in
  if negb (c =? EOF) then (c, ungetc c f1) else (c, f1).

(** The save file as the program sees it: [None] when [fopen] fails. *)
Definition disk : Type := option FILE.

(** ** File operations *)

Definition save_cell (g : Globals) (y x : Z) (f : FILE) : FILE :=
  match find_spot g x y with
  | None => f
  | Some cell =>
      let c := deref (canvas (g_app g)) cell in
      let f1 := fprintf_d_comma_d (color c) (ch c) f in
      if x <? int_of (canvas_width (g_app g) - 1) then fputc SPACE f1 else f1
  end.

Definition save_row (g : Globals) (y : Z) (f : FILE) : FILE :=
  fputc NEWLINE
    (for_upto (canvas_width (g_app g)) always (save_cell g y) f).

(** [writable] tells whether [fopen(filename, "w")] succeeds; the result
    is the save file after the call. *)
Definition save_masterpiece (writable : bool) (g : Globals) (d : disk) : disk :=
  if negb writable then d
  else
    let f := fprintf_d_d_nl (canvas_width (g_app g)) (canvas_height (g_app g)) [] in
    Some (for_upto (canvas_height (g_app g)) always (save_row g) f).

(** State of the "read canvas data" loops of [load_masterpiece]. *)
Record reader : Type := mkReader {
  rd_file : FILE;
  temp_canvas : list Cell;
  read_success : bool
}.

(** Body of the inner loop: one token into [temp_canvas[y * file_width + x]]. *)
Definition read_cell (file_width y x : Z) (r : reader) : reader :=
  let '(n, color_val, ascii_val, f1) := fscanf_d_comma_d (rd_file r) 0 32 in
  if negb (n =? 2) then mkReader f1 (temp_canvas r) false
  else
    let cell := int_of (int_of (y * file_width) + x) in
    let c :=
      mkCell
        (uchar_of (if (ascii_val >=? 0) && (ascii_val <=? 255)
                   then ascii_val else SPACE))
        (short_of (if (color_val >=? 0) && (color_val <? COLOR_COUNT)
                   then color_val else 7)) in
    let '(_, f2) := sneak_peek_at_file f1 in
    mkReader f2 (store (temp_canvas r) cell c) true.

(** Body of the outer loop: [file_width] tokens, then the rest of the line
    is skipped (also after a failed read, where the inner loop stopped). *)
Definition read_row (file_width y : Z) (r : reader) : reader :=
  let r1 := for_upto file_width read_success (read_cell file_width y) r in
  mkReader (skip_line (rd_file r1)) (temp_canvas r1) (read_success r1).

Definition read_canvas_data (file_width file_height : Z) (r : reader) : reader :=
  for_upto file_height read_success (read_row file_width) r.

(** The header: [fscanf] of two numbers and the test on them. *)
Definition read_header (f : FILE) : option (Z * Z * FILE) :=
  let '(n, file_width, file_height, f1) := fscanf_d_d f 0 0 in
  if negb (n =? 2) || (file_width <=? 0) || (file_height <=? 0) ||
     (file_width >? MAX_CANVAS_WIDTH) || (file_height >? MAX_CANVAS_HEIGHT)
  then None
  else Some (file_width, file_height, f1).

(** The parse stage of [load_masterpiece], from the open file to the filled
    temporary grid; [None] where the function returns without copying.
    [malloc] is taken to succeed. *)
Definition parse_masterpiece (f : FILE) : option (Z * Z * list Cell) :=
  match read_header f with
  | None => None
  | Some (file_width, file_height, f1) =>
      let temp_size := size_t_of (size_t_of file_width * size_t_of file_height) in
      let temp := replicate (Z.to_nat temp_size) garbage in
      let f2 := skip_line f1 in
      let r := read_canvas_data file_width file_height (mkReader f2 temp true) in
      if negb (read_success r) then None
      else Some (file_width, file_height, temp_canvas r)
  end.

Definition copy_cell (g : Globals) (file_width : Z) (temp : list Cell)
    (y x : Z) (buf : list Cell) : list Cell :=
  let src := int_of (int_of (y * file_width) + x) in
  match find_spot g x y with
  | Some dst => store buf dst (deref temp src)
  | None => buf
  end.

(** The copy stage: the overlapping region, row by row, into the canvas. *)
Definition copy_overlap (g : Globals) (file_width file_height : Z)
    (temp : list Cell) : list Cell :=
  let copy_width :=
    if file_width <? canvas_width (g_app g) then file_width
    else canvas_width (g_app g) in
  let copy_height :=
    if file_height <? canvas_height (g_app g) then file_height
    else canvas_height (g_app g) in
  for_upto copy_height always
    (fun y buf => for_upto copy_width always (copy_cell g file_width temp y) buf)
    (canvas (g_app g)).

Definition load_masterpiece (d : disk) (g : Globals) : Globals :=
  match d with
  | None => g
  | Some f =>
      match parse_masterpiece f with
      | None => g
      | Some (file_width, file_height, temp) =>
          with_canvas g (copy_overlap g file_width file_height temp)
      end
  end.

(** ** Running examples *)

Definition nl : string := String "010"%char EmptyString.

(** A blank [w] x [h] canvas in the state [start_stuff] leaves. *)
Definition blank (w h : Z) : Globals :=
  mkGlobals
    (mkApp (replicate (Z.to_nat (w * h)) (mkCell SPACE 7)) w h (Z.quot w 2) (Z.quot h 2)
           false 0 7 true)
    original_brush_chars.

(** [paint_stuff] at [(x, y)] with brush number [brush] and colour [col]:
    what pressing the colour and brush keys, moving there and pressing
    space amounts to. *)
Definition paint_at (x y brush col : Z) (g : Globals) : Globals :=
  let a := g_app g in
  paint_stuff
    (mkGlobals
       (mkApp (canvas a) (canvas_width a) (canvas_height a) x y
              (pen_down a) brush col (running a))
       (brush_chars g)).

(** ** The data model of the specification *)

(** A canvas: positive dimensions of at most 1000, and [width * height]
    cells. *)
Definition canvas_ok (g : Globals) : Prop :=
  0 < canvas_width (g_app g) <= MAX_CANVAS_WIDTH /\
  0 < canvas_height (g_app g) <= MAX_CANVAS_HEIGHT /\
  Z.of_nat (length (canvas (g_app g))) =
    canvas_width (g_app g) * canvas_height (g_app g).

(** A cell of the file format: colour index in [0,7], character code in
    [0,255]. *)
Definition cell_ok (c : Cell) : Prop :=
  0 <= color c <= 7 /\ 0 <= ch c <= 255.

(** The cell at [(x, y)], addressed row-major. *)
Definition cell_at (g : Globals) (x y : Z) : option Cell :=
  canvas (g_app g) !! Z.to_nat (y * canvas_width (g_app g) + x).

Definition inside (g : Globals) (x y : Z) : Prop :=
  0 <= x < canvas_width (g_app g) /\ 0 <= y < canvas_height (g_app g).

(** ** The file format of the specification *)

(** A token ["<colorIndex>,<asciiCode>"]. *)
Definition token (c : Cell) : list Z :=
  print_d (color c) ++ [COMMA] ++ print_d (ch c).

(** Tokens separated by a single space. *)
Fixpoint join_with_space (toks : list (list Z)) : list Z :=
  match toks with
  | [] => []
  | [t] => t
  | t :: rest => t ++ [SPACE] ++ join_with_space rest
  end.

(** The cells of row [y] in increasing [x] order. *)
Definition row_cells (g : Globals) (y : Z) : list Cell :=
  (fun x => deref (canvas (g_app g)) (y * canvas_width (g_app g) + x))
    <$> seqZ 0 (canvas_width (g_app g)).

Definition row_line (cells : list Cell) : list Z :=
  join_with_space (map token cells) ++ [NEWLINE].

Definition header_line (w h : Z) : list Z :=
  print_d w ++ [SPACE] ++ print_d h ++ [NEWLINE].

(** The text the specification describes for a canvas: the header line,
    then one line per row. *)
Definition serialize_spec (g : Globals) : FILE :=
  header_line (canvas_width (g_app g)) (canvas_height (g_app g)) ++
  concat ((fun y => row_line (row_cells g y))
            <$> seqZ 0 (canvas_height (g_app g))).

(** The lines of a text, and the tokens of a line (separated by spaces). *)
Fixpoint split_on (sep : Z) (cur : list Z) (f : FILE) : list (list Z) :=
  match f with
  | [] => [rev cur]
  | c :: rest =>
      if c =? sep then rev cur :: split_on sep [] rest
      else split_on sep (c :: cur) rest
  end.

Definition file_lines (f : FILE) : list (list Z) := split_on NEWLINE [] f.

Definition line_tokens (l : list Z) : list (list Z) :=
  filter (fun t => t <> []) (split_on SPACE [] l).

(** The position a move by [delta] leads to, clamped to [[0, bound)]. *)
Definition clamp_move (pos delta bound : Z) : Z :=
  Z.min (bound - 1) (Z.max 0 (pos + delta)).

(** The cell [load_masterpiece] stores for the two numbers of a token. *)
Definition decode (color_val ascii_val : Z) : Cell :=
  mkCell (if (0 <=? ascii_val) && (ascii_val <=? 255) then ascii_val else 32)
         (if (0 <=? color_val) && (color_val <=? 7) then color_val else 7).

(** A decimal numeral as [%d] reads it: an optional sign and at least one
    digit. *)
Definition all_digits (s : list Z) : bool :=
  match s with
  | [] => false
  | _ => forallb isdigit s
  end.

Definition is_numeral (s : list Z) : bool :=
  match s with
  | c :: rest => if (c =? 45) || (c =? 43) then all_digits rest else all_digits s
  | [] => false
  end.

Definition digit_step (acc c : Z) : Z := acc * 10 + (c - 48).

Definition digits_value (ds : list Z) : Z := fold_left digit_step ds 0.

Definition numeral_value (s : list Z) : Z :=
  match s with
  | c :: rest =>
      if c =? 45 then - digits_value rest
      else if c =? 43 then digits_value rest
      else digits_value s
  | [] => 0
  end.

(** A token of a file, as the texts of its two numbers. *)
Definition file_token : Type := list Z * list Z.

Definition token_ok (t : file_token) : Prop :=
  is_numeral (fst t) = true /\ is_numeral (snd t) = true.

Definition raw_token (t : file_token) : list Z :=
  fst t ++ [COMMA] ++ snd t.

(** The cell [load_masterpiece] stores for a token. *)
Definition token_cell (t : file_token) : Cell :=
  decode (store_d (numeral_value (fst t))) (store_d (numeral_value (snd t))).

(** A row of a file: its tokens, a single space between two of them, then
    anything up to the end of the line. *)
Definition file_row : Type := list file_token * list Z.

Definition raw_line (toks : list file_token) (extra : list Z) : list Z :=
  join_with_space (map raw_token toks) ++ extra ++ [NEWLINE].

(** What comes next in the stream is not a digit: a number read just before
    ends there. *)
Definition no_digit_ahead (f : FILE) : Prop :=
  match f with
  | c :: _ => isdigit c = false
  | [] => True
  end.

Definition digit_ahead (f : FILE) : Prop :=
  match f with
  | c :: _ => isdigit c = true
  | [] => False
  end.

Definition no_eof_ahead (f : FILE) : Prop :=
  match f with c :: _ => c <> EOF | [] => True end.

(** Streams hold [unsigned char] values; in particular no character of a
    file is [EOF]. *)
Definition is_char (c : Z) : Prop := 0 <= c <= 255.

(** Content that may follow the last token of a line: it does not go on
    with a digit and stays on the line. *)
Definition trailing (extra : list Z) : Prop :=
  (NEWLINE ∉ extra) /\ no_digit_ahead extra /\ Forall is_char extra.

(** Tokens each preceded by one space: a line after its first token. *)
Definition spaced (toks : list file_token) : list Z :=
  concat ((fun t => SPACE :: raw_token t) <$> toks).

(** A row of a file with [width] well-formed tokens. *)
Definition row_ok (width : Z) (row : file_row) : Prop :=
  Z.of_nat (length (fst row)) = width /\
  Forall token_ok (fst row) /\
  trailing (snd row).

Definition body_text (rows : list file_row) : list Z :=
  concat ((fun row => raw_line (fst row) (snd row)) <$> rows).

Definition body_cells (rows : list file_row) : list Cell :=
  token_cell <$> concat (fst <$> rows).

(** A 3 x 2 canvas whose cursor has been put outside the grid. *)
Definition stray : Globals := with_cursor (blank 3 2) 7 9.

(** A 3 x 2 canvas with the pen down and the cursor in the top-left
    corner. *)
Definition corner_pen_down : Globals :=
  mkGlobals
    (mkApp (replicate 6 (mkCell SPACE 7)) 3 2 0 0 true 1 4 true)
    original_brush_chars.

(** The example of the specification: a blank 3 x 2 canvas, then ['#'] in
    colour 1 painted at (0,0) and ['*'] in colour 3 at (2,1). *)
Definition painted_example : Globals :=
  paint_at 2 1 1 3 (paint_at 0 0 0 1 (blank 3 2)).

Definition painted_text : FILE :=
  text ("3 2" ++ nl ++ "1,35 7,32 7,32" ++ nl ++ "7,32 7,32 3,42" ++ nl)%string.

(** The two numbers of a cell's token, as [save_masterpiece] prints them. *)
Definition cell_numbers (c : Cell) : file_token :=
  (print_d (color c), print_d (ch c)).

(** The rows of a canvas as rows of a file, nothing after the tokens. *)
Definition canvas_rows (g : Globals) : list file_row :=
  (fun y => (cell_numbers <$> row_cells g y, [])) <$> seqZ 0 (canvas_height (g_app g)).

(** A file with its rows cut after their last token and nothing after the
    last row. *)
Definition without_extras (rows : list file_row) : list file_row :=
  (fun row => (fst row, [])) <$> rows.

(** A 1 x 2 file whose first line goes on after its token and which has a
    third line. *)
Definition long_text : FILE :=
  text ("1 2" ++ nl ++ "+1,035 2,36 junk" ++ nl ++ "-4,300" ++ nl ++ "5,37" ++ nl)%string.

Definition long_rows : list file_row :=
  [([(text "+1", text "035")], text " 2,36 junk");
   ([(text "-4", text "300")], [])].

(** A 2 x 2 file whose first row has one token on its line, followed by
    two lines of two tokens. *)
Definition short_row_text : FILE :=
  text ("2 2" ++ nl ++ "1,35" ++ nl ++ "2,36 3,37" ++ nl ++ "4,38 5,39" ++ nl)%string.

(** A 2 x 2 file whose last row stops after one token. *)
Definition truncated_text : FILE :=
  text ("2 2" ++ nl ++ "1,35 2,36" ++ nl ++ "3,37" ++ nl)%string.

(** A 2 x 1 file whose row goes on after its two tokens with text that is
    not a token. *)
Definition junk_text : FILE :=
  text ("2 1" ++ nl ++ "1,35 2,36 junk" ++ nl)%string.

(** A well-formed token ["<color>,<ascii>"]: two numerals around one comma. *)
Definition well_formed_token (t : list Z) : bool :=
  match split_on COMMA [] t with
  | [a; b] => is_numeral a && is_numeral b
  | _ => false
  end.

(** Line [y + 1] of a file: the line of row [y]. *)
Definition row_of_file (f : FILE) (y : Z) : list Z :=
  nth (Z.to_nat (y + 1)) (file_lines f) [].

(** The next token cannot be read from [f]: [fscanf] converts fewer than
    two numbers (the input ends, or what comes is not a token). *)
Definition token_missing (f : FILE) : Prop :=
  fst (fst (fst (fscanf_d_comma_d f 0 32))) <> 2.

(** The first tokens of a row. *)
Definition partial_row (toks : list file_token) : list Z :=
  join_with_space (map raw_token toks).


(** ** The header and the tokens, as the specification words them *)

(** The header line of a text: its first line. *)
Definition header_of_file (f : FILE) : list Z := nth 0 (file_lines f) [].

(** The size that a header line ["<width> <height>"] declares: the line
    parses as two integers.  [None] for a missing or malformed header. *)
Definition declared_size (f : FILE) : option (Z * Z) :=
  match line_tokens (header_of_file f) with
  | [a; b] =>
      if is_numeral a && is_numeral b
      then Some (numeral_value a, numeral_value b)
      else None
  | _ => None
  end.

(** The text starts with a numeral: an optional sign, then a digit. *)
Definition starts_numeral (f : FILE) : bool :=
  match f with
  | c :: rest =>
      if (c =? 45) || (c =? 43) then
        match rest with
        | d :: _ => isdigit d
        | [] => false
        end
      else isdigit c
  | [] => false
  end.

(** After white space, line ends included, the text goes on with a
    numeral. *)
Definition number_ahead (f : FILE) : bool := starts_numeral (skip_space f).

(** A file whose first line holds one number; the second line starts with
    a number too. *)
Definition one_number_header_text : FILE :=
  text ("3" ++ nl ++ "2" ++ nl ++ "1,35 2,36 3,37" ++ nl
        ++ "4,38 5,39 6,40" ++ nl)%string.

(** A file whose header declares a width of [2^32 + 2]. *)
Definition wide_header_text : FILE :=
  text ("4294967298 1" ++ nl ++ "1,35 2,36" ++ nl)%string.


(** ** Input handling *)

(** Key codes of curses for the arrow keys ([KEY_DOWN], [KEY_UP],
    [KEY_LEFT], [KEY_RIGHT] of [curses.h], the same in ncurses and
    PDCurses); every other key is its character code. *)
Definition KEY_DOWN : Z := 258.
Definition KEY_UP : Z := 259.
Definition KEY_LEFT : Z := 260.
Definition KEY_RIGHT : Z := 261.

(** [BRUSH_COUNT] is [sizeof(brush_chars)], a [size_t]. *)
Definition BRUSH_COUNT : Z := 10.

Definition with_pen_down (g : Globals) (b : bool) : Globals :=
  let a := g_app g in
  mkGlobals
    (mkApp (canvas a) (canvas_width a) (canvas_height a) (cursor_x a)
           (cursor_y a) b (brush_index a) (current_color a) (running a))
    (brush_chars g).

Definition with_brush (g : Globals) (index : Z) (chars : list Z) : Globals :=
  let a := g_app g in
  mkGlobals
    (mkApp (canvas a) (canvas_width a) (canvas_height a) (cursor_x a)
           (cursor_y a) (pen_down a) index (current_color a) (running a))
    chars.

Definition with_color (g : Globals) (c : Z) : Globals :=
  let a := g_app g in
  mkGlobals
    (mkApp (canvas a) (canvas_width a) (canvas_height a) (cursor_x a)
           (cursor_y a) (pen_down a) (brush_index a) c (running a))
    (brush_chars g).

Definition with_running (g : Globals) (b : bool) : Globals :=
  let a := g_app g in
  mkGlobals
    (mkApp (canvas a) (canvas_width a) (canvas_height a) (cursor_x a)
           (cursor_y a) (pen_down a) (brush_index a) (current_color a) b)
    (brush_chars g).

(** Membership of a key in the labels of one [case] group. *)
Definition key_in (key : Z) (labels : list Z) : bool :=
  existsb (Z.eqb key) labels.

(** [input_stuff]: the [switch] on the key, on the program's globals and
    the save file.  [writable] tells whether the save file can be opened
    for writing.  The labels are pairwise distinct, so the order of the
    tests is of no consequence; it is the order of the source. *)
Definition input_stuff (writable : bool) (key : Z) (s : Globals * disk) :
    Globals * disk :=
  let '(g, d) := s in
  let a := g_app g in
  if key =? KEY_UP then (move_brush 0 (-1) g, d)
  else if key =? KEY_DOWN then (move_brush 0 1 g, d)
  else if key =? KEY_LEFT then (move_brush (-1) 0 g, d)
  else if key =? KEY_RIGHT then (move_brush 1 0 g, d)
  else if key =? 32 then (paint_stuff g, d)
  else if key_in key [10; 13] then (with_pen_down g (negb (pen_down a)), d)
  else if key_in key [98; 66] then
    (with_brush g
       (int_of (size_t_of (int_of (brush_index a + 1)) mod BRUSH_COUNT))
       original_brush_chars, d)
  else if key_in key [101; 69] then
    (with_brush g 0 (<[0%nat := SPACE]> original_brush_chars), d)
  else if key =? 99 then
    (with_color g (short_of (Z.rem (int_of (current_color a + 1)) COLOR_COUNT)), d)
  else if key_in key [120; 88] then (start_with_blank_canvas g, d)
  else if key_in key [48; 49; 50; 51; 52; 53; 54; 55] then
    (with_color g (short_of (int_of (key - 48))), d)
  else if key_in key [115; 83] then (g, save_masterpiece writable g d)
  else if key_in key [108; 76] then (load_masterpiece d g, d)
  else if key_in key [113; 81; 27] then (with_running g false, d)
  else (g, d).

(** The keys [input_stuff] has a [case] for. *)
Definition handled_keys : list Z :=
  [KEY_UP; KEY_DOWN; KEY_LEFT; KEY_RIGHT; 32; 10; 13; 98; 66; 101; 69; 99;
   120; 88; 48; 49; 50; 51; 52; 53; 54; 55; 115; 83; 108; 76; 113; 81; 27].

(** The loop of [main] on the keys [getch] returns, in order. *)
Fixpoint main_loop (writable : bool) (keys : list Z) (s : Globals * disk) :
    Globals * disk :=
  match keys with
  | [] => s
  | key :: rest =>
      if running (g_app (fst s)) then
        main_loop writable rest (input_stuff writable key s)
      else s
  end.

(** Keys handled one after the other, whatever [running] is. *)
Definition press (writable : bool) (keys : list Z) (s : Globals * disk) :
    Globals * disk :=
  fold_left (fun s key => input_stuff writable key s) keys s.

(** The brush table in eraser mode. *)
Definition eraser_brush_chars : list Z := <[0%nat := SPACE]> original_brush_chars.

(** What holds of the program's state from [start_stuff] on. *)
Definition app_ok (g : Globals) : Prop :=
  canvas_ok g /\
  inside g (cursor_x (g_app g)) (cursor_y (g_app g)) /\
  0 <= current_color (g_app g) <= 7 /\
  0 <= brush_index (g_app g) < BRUSH_COUNT /\
  (brush_chars g = original_brush_chars \/
   (brush_chars g = eraser_brush_chars /\ brush_index (g_app g) = 0)) /\
  Forall cell_ok (canvas (g_app g)).

(** The glyph [paint_stuff] writes. *)
Definition current_glyph (g : Globals) : Z :=
  uchar_of (nth (Z.to_nat (brush_index (g_app g))) (brush_chars g) 0).

(** Two runs of the read loops on the same file, from temporary grids of
    the same size: they are at the same point of the file with the same
    outcome so far and, while reading succeeds, the grids hold the same
    cells below offset [k]. *)
Definition readers_agree (k : Z) (r1 r2 : reader) : Prop :=
  rd_file r1 = rd_file r2 /\
  read_success r1 = read_success r2 /\
  length (temp_canvas r1) = length (temp_canvas r2) /\
  (read_success r1 = true ->
   forall i : nat, Z.of_nat i < k -> temp_canvas r1 !! i = temp_canvas r2 !! i).

(** ** Rendering

    The terminal is driven through curses; what the program does to it is
    the sequence of the curses calls it makes.  The calls of the canvas
    renderers are [attrset] and [mvaddch]; the attributes they pass are
    [A_NORMAL], [COLOR_PAIR(n)] and [COLOR_PAIR(n) | A_REVERSE]. *)

Inductive attr : Type :=
| A_NORMAL
| COLOR_PAIR (n : Z)
| COLOR_PAIR_REVERSE (n : Z).

Inductive curses_call : Type :=
| attrset (a : attr)
| mvaddch (y x c : Z).

Definition canvas_to_screen_y (y : Z) : Z := int_of (STATUS_LINES_TOP + y).
Definition canvas_to_screen_x (x : Z) : Z := x.

(** [cell->ch ? cell->ch : ' ']. *)
Definition shown_glyph (c : Cell) : Z := if ch c =? 0 then SPACE else ch c.

Definition render_stuff (g : Globals) (x y : Z) (out : list curses_call) :
    list curses_call :=
  match find_spot g x y with
  | None => out
  | Some cell =>
      let c := deref (canvas (g_app g)) cell in
      let screen_y := canvas_to_screen_y y in
      let screen_x := canvas_to_screen_x x in
      out ++ [attrset (COLOR_PAIR (int_of (color c + 1)));
              mvaddch screen_y screen_x (shown_glyph c);
              attrset A_NORMAL]
  end.

Definition paint_entire_canvas (g : Globals) (out : list curses_call) :
    list curses_call :=
  for_upto (canvas_height (g_app g)) always
    (fun y out =>
       for_upto (canvas_width (g_app g)) always
         (fun x out => render_stuff g x y out) out)
    out.

Definition show_or_hide_cursor (show : bool) (g : Globals)
    (out : list curses_call) : list curses_call :=
  match find_spot g (cursor_x (g_app g)) (cursor_y (g_app g)) with
  | None => out
  | Some cell =>
      let c := deref (canvas (g_app g)) cell in
      let screen_y := canvas_to_screen_y (cursor_y (g_app g)) in
      let screen_x := canvas_to_screen_x (cursor_x (g_app g)) in
      if show then
        out ++ [attrset (COLOR_PAIR_REVERSE (int_of (color c + 1)));
                mvaddch screen_y screen_x (shown_glyph c);
                attrset A_NORMAL]
      else render_stuff g (cursor_x (g_app g)) (cursor_y (g_app g)) out
  end.

(** The calls that draw cell [c] at canvas position [(x, y)]: two rows
    below, in the colour pair one above the cell's colour. *)
Definition draw_cell (c : Cell) (x y : Z) : list curses_call :=
  [attrset (COLOR_PAIR (color c + 1)); mvaddch (y + 2) x (shown_glyph c);
   attrset A_NORMAL].

(** Every cell of the canvas drawn once, row by row. *)
Definition draw_all (g : Globals) : list curses_call :=
  concat
    ((fun y =>
        concat ((fun x =>
                   draw_cell (deref (canvas (g_app g))
                                    (y * canvas_width (g_app g) + x)) x y)
                  <$> seqZ 0 (canvas_width (g_app g))))
       <$> seqZ 0 (canvas_height (g_app g))).

(** A call that draws inside the canvas area of the screen, which starts
    below the two status lines, and draws a character. *)
Definition draws_in_canvas_area (g : Globals) (call : curses_call) : Prop :=
  match call with
  | attrset _ => True
  | mvaddch y x c =>
      2 <= y < canvas_height (g_app g) + 2 /\ 0 <= x < canvas_width (g_app g) /\
      c <> 0
  end.

(** What [paint_stuff] puts on the screen: after the store it calls
    [render_stuff] at the cursor, which looks the cell up again. *)
Definition paint_stuff_screen (g : Globals) (out : list curses_call)
    : list curses_call :=
  render_stuff (paint_stuff g) (cursor_x (g_app g)) (cursor_y (g_app g)) out.

(** What [start_with_blank_canvas] puts on the screen: a full redraw of
    the cleared grid. *)
Definition start_with_blank_canvas_screen (g : Globals)
    (out : list curses_call) : list curses_call :=
  paint_entire_canvas (start_with_blank_canvas g) out.

(** Every cell drawn as a space in colour pair [pair]. *)
Definition draw_blank (w h pair : Z) : list curses_call :=
  concat ((fun y =>
             concat ((fun x =>
                        [attrset (COLOR_PAIR pair); mvaddch (y + 2) x SPACE;
                         attrset A_NORMAL])
                       <$> seqZ 0 w))
            <$> seqZ 0 h).
(* ================================================================= *)
(** * Properties *)

(** ** Machine integers *)

Ltac int_range := unfold in_int, INT_MIN, INT_MAX in *; lia.

Ltac unfold_limits :=
  unfold MAX_CANVAS_WIDTH, MAX_CANVAS_HEIGHT in *.

(** [canvas_ok] of a given canvas, by evaluation. *)
Ltac concrete_canvas :=
  unfold canvas_ok, MAX_CANVAS_WIDTH, MAX_CANVAS_HEIGHT; simpl; lia.

Lemma int_of_small z : in_int z -> int_of z = z.
Proof.
unfold in_int, INT_MIN, INT_MAX, int_of, wrap_signed. intros H.
change (2 ^ (32 - 1)) with 2147483648 in *.
change (2 ^ 31) with 2147483648 in *.
change (2 ^ 32) with 4294967296.
rewrite Z.mod_small; lia.
Qed.

Lemma short_of_small z : - 32768 <= z <= 32767 -> short_of z = z.
Proof.
unfold short_of, wrap_signed. intros H.
change (2 ^ (16 - 1)) with 32768. change (2 ^ 16) with 65536.
rewrite Z.mod_small; lia.
Qed.

Lemma uchar_of_small z : 0 <= z <= 255 -> uchar_of z = z.
Proof. unfold uchar_of. intros H. rewrite Z.mod_small; lia. Qed.

Lemma size_t_of_small z : 0 <= z < 2 ^ 64 -> size_t_of z = z.
Proof. unfold size_t_of. intros H. rewrite Z.mod_small; lia. Qed.

(** ** Buffers *)

Lemma store_at_end (done rest : list Cell) (old c : Cell) (p : Z) :
  p = Z.of_nat (length done) ->
  store (done ++ old :: rest) p c = done ++ c :: rest.
Proof.
  intros ->. unfold store.
  destruct (Z.ltb_spec (Z.of_nat (length done)) 0); [lia|].
  rewrite Nat2Z.id.
  replace (length done) with (length done + 0)%nat at 1 by lia.
  now rewrite insert_app_r.
Qed.

Lemma length_store buf p c : length (store buf p c) = length buf.
Proof. unfold store. destruct (p <? 0); [reflexivity | apply length_insert]. Qed.

Lemma lookup_store buf p c (i : nat) :
  in_buffer buf p ->
  store buf p c !! i = if decide (Z.to_nat p = i) then Some c else buf !! i.
Proof.
  intros [Hlo Hhi]. unfold store.
  destruct (Z.ltb_spec p 0); [lia|].
  destruct (decide (Z.to_nat p = i)) as [<- | Hne].
  - apply list_lookup_insert_eq. lia.
  - now apply list_lookup_insert_ne.
Qed.

(** ** Canvas addressing *)

Lemma find_spot_inside g x y :
  canvas_ok g -> inside g x y ->
  find_spot g x y = Some (y * canvas_width (g_app g) + x).
Proof.
  intros (Hw & Hh & _) [Hx Hy]. unfold find_spot, check_if_coordinates_make_sense.
  unfold MAX_CANVAS_WIDTH, MAX_CANVAS_HEIGHT in *.
  destruct (Z.leb_spec 0 x); [|lia].
  destruct (Z.ltb_spec x (canvas_width (g_app g))); [|lia].
  destruct (Z.leb_spec 0 y); [|lia].
  destruct (Z.ltb_spec y (canvas_height (g_app g))); [|lia].
  simpl. f_equal.
  assert (0 <= y * canvas_width (g_app g) <= 1000 * 1000) by nia.
  rewrite (int_of_small (y * _)) by int_range.
  apply int_of_small. int_range.
Qed.

Lemma find_spot_outside g x y : ~ inside g x y -> find_spot g x y = None.
Proof.
  intros Hout. unfold find_spot, check_if_coordinates_make_sense.
  destruct (Z.leb_spec 0 x); simpl; [|reflexivity].
  destruct (Z.ltb_spec x (canvas_width (g_app g))); simpl; [|reflexivity].
  destruct (Z.leb_spec 0 y); simpl; [|reflexivity].
  destruct (Z.ltb_spec y (canvas_height (g_app g))); simpl; [|reflexivity].
  exfalso. apply Hout. unfold inside. lia.
Qed.

Lemma find_spot_Some g x y p : find_spot g x y = Some p -> inside g x y.
Proof.
  unfold find_spot, check_if_coordinates_make_sense, inside.
  destruct (Z.leb_spec 0 x); simpl; [|discriminate].
  destruct (Z.ltb_spec x (canvas_width (g_app g))); simpl; [|discriminate].
  destruct (Z.leb_spec 0 y); simpl; [|discriminate].
  destruct (Z.ltb_spec y (canvas_height (g_app g))); simpl; [|discriminate].
  intros _. lia.
Qed.

Lemma offset_in_buffer g x y :
  canvas_ok g -> inside g x y ->
  in_buffer (canvas (g_app g)) (y * canvas_width (g_app g) + x).
Proof.
  intros (Hw & Hh & Hlen) [Hx Hy]. unfold in_buffer. rewrite Hlen. nia.
Qed.

(** ** The clearing loop *)

Lemma fill_loop (c : Cell) (n : nat) :
  forall (done rest : list Cell) (i : Z),
    i = Z.of_nat (length done) -> length rest = n ->
    for_loop n i always (fun i buf => store buf i c) (done ++ rest)
    = done ++ replicate n c.
Proof.
  induction n as [|n IH]; intros done rest i Hi Hlen.
  - destruct rest; [reflexivity | discriminate].
  - destruct rest as [|old rest]; [discriminate|]. simpl.
    rewrite (store_at_end done rest old c i Hi).
    change (done ++ c :: rest) with (done ++ [c] ++ rest).
    rewrite app_assoc, IH.
    + now rewrite <- app_assoc.
    + rewrite length_app. simpl. lia.
    + simpl in Hlen. lia.
Qed.

(** ** Printing and scanning decimal numbers *)

Lemma isdigit_of_digit d : 0 <= d < 10 -> isdigit (48 + d) = true.
Proof.
  intros H. unfold isdigit.
  destruct (Z.leb_spec 48 (48 + d)); [|lia].
  destruct (Z.leb_spec (48 + d) 57); [reflexivity|lia].
Qed.

Lemma isdigit_bounds c : isdigit c = true -> 48 <= c <= 57.
Proof.
  unfold isdigit.
  destruct (Z.leb_spec 48 c); [|discriminate].
  destruct (Z.leb_spec c 57); [lia|discriminate].
Qed.

Lemma digit_not_space c : isdigit c = true -> isspace c = false.
Proof.
  intros H%isdigit_bounds. unfold isspace.
  destruct (Z.eqb_spec c 32); [lia|].
  destruct (Z.leb_spec 9 c); [|reflexivity].
  destruct (Z.leb_spec c 13); [lia|reflexivity].
Qed.

Lemma scan_digits_stop f acc : no_digit_ahead f -> scan_digits f acc = (acc, f).
Proof. destruct f as [|c f]; simpl; [reflexivity|]. now intros ->. Qed.

Lemma print_digits_head fuel :
  forall n acc, 0 <= n -> (fuel = O -> digit_ahead acc) ->
    digit_ahead (print_digits fuel n acc).
Proof.
  induction fuel as [|fuel IH]; intros n acc Hn Hacc; simpl.
  - now apply Hacc.
  - assert (Hd : isdigit (48 + n mod 10) = true).
    { apply isdigit_of_digit. apply Z.mod_pos_bound. lia. }
    destruct (n / 10 =? 0); [exact Hd|].
    apply IH; [apply Z.div_pos; lia|]. intros _. exact Hd.
Qed.

Lemma print_digits_all fuel :
  forall n acc, 0 <= n -> forallb isdigit acc = true ->
    forallb isdigit (print_digits fuel n acc) = true.
Proof.
  induction fuel as [|fuel IH]; intros n acc Hn Hacc; simpl; [assumption|].
  assert (Hd : isdigit (48 + n mod 10) = true).
  { apply isdigit_of_digit. apply Z.mod_pos_bound. lia. }
  destruct (n / 10 =? 0).
  - simpl. now rewrite Hd.
  - apply IH; [apply Z.div_pos; lia|]. simpl. now rewrite Hd.
Qed.

(** Reading back the digits that were printed in front of [acc]. *)
Lemma print_digits_value fuel :
  forall n acc, 0 <= n < 10 ^ Z.of_nat fuel -> (0 < fuel)%nat ->
    exists m, forall a,
      fold_left digit_step (print_digits fuel n acc) a
      = fold_left digit_step acc (a * m + n).
Proof.
  induction fuel as [|fuel IH]; intros n acc Hn Hfuel; [lia|].
  rewrite Nat2Z.inj_succ, Z.pow_succ_r in Hn by lia.
  pose proof (Z.div_mod n 10 ltac:(lia)) as Hdm.
  simpl. destruct (Z.eqb_spec (n / 10) 0) as [Hz|Hnz].
  - exists 10. intros a. simpl. f_equal. unfold digit_step. lia.
  - assert (Hq : 0 <= n / 10 < 10 ^ Z.of_nat fuel).
    { split; [apply Z.div_pos; lia|]. apply Z.div_lt_upper_bound; lia. }
    assert (Hf : (0 < fuel)%nat).
    { destruct fuel; [|lia]. simpl in Hq. lia. }
    destruct (IH (n / 10) ((48 + n mod 10) :: acc) Hq Hf) as [m Hm].
    exists (m * 10). intros a. rewrite Hm. simpl. f_equal. unfold digit_step. lia.
Qed.

Lemma scan_digits_app ds :
  forall r acc, forallb isdigit ds = true -> no_digit_ahead r ->
    scan_digits (ds ++ r) acc = (fold_left digit_step ds acc, r).
Proof.
  induction ds as [|d ds IH]; intros r acc Hds Hr.
  - now apply scan_digits_stop.
  - cbn in Hds. apply andb_true_iff in Hds as [Hd Hds].
    cbn. rewrite Hd. now apply IH.
Qed.

Lemma skip_space_app ws f :
  Forall (fun c => isspace c = true) ws -> skip_space (ws ++ f) = skip_space f.
Proof. induction 1 as [|c ws Hc _ IH]; simpl; [reflexivity|]. now rewrite Hc. Qed.

Lemma scan_d_space ws f :
  Forall (fun c => isspace c = true) ws -> scan_d (ws ++ f) = scan_d f.
Proof. intros H. unfold scan_d. now rewrite skip_space_app. Qed.

Lemma all_digits_head ds :
  all_digits ds = true ->
  exists d tl, ds = d :: tl /\ isdigit d = true /\ forallb isdigit ds = true.
Proof.
  destruct ds as [|d tl]; [discriminate|]. intros H. cbn in H.
  exists d, tl. split; [reflexivity|].
  apply andb_true_iff in H as [Hd Htl]. split; [exact Hd|]. cbn. now rewrite Hd.
Qed.

(** [%d] reads a numeral that is followed by something other than a digit
    and stores its value. *)
Lemma scan_d_numeral s r :
  is_numeral s = true -> no_digit_ahead r ->
  scan_d (s ++ r) = Converted (store_d (numeral_value s)) r.
Proof.
  intros Hs Hr. destruct s as [|c rest]; [discriminate|].
  unfold is_numeral in Hs. unfold scan_d, numeral_value.
  destruct (Z.eqb_spec c 45) as [->|H45]; [|destruct (Z.eqb_spec c 43) as [->|H43]];
    cbn [orb] in Hs.
  - destruct (all_digits_head _ Hs) as (d & tl & -> & Hd & Hall).
    cbn [app skip_space]. change (isspace 45) with false. cbv iota.
    change (45 =? 45) with true. cbn [orb]. rewrite Hd.
    change (d :: tl ++ r) with ((d :: tl) ++ r).
    now rewrite scan_digits_app.
  - destruct (all_digits_head _ Hs) as (d & tl & -> & Hd & Hall).
    cbn [app skip_space]. change (isspace 43) with false. cbv iota.
    change (43 =? 45) with false. change (43 =? 43) with true. cbn [orb].
    rewrite Hd. change (d :: tl ++ r) with ((d :: tl) ++ r).
    now rewrite scan_digits_app.
  - destruct (all_digits_head _ Hs) as (d & tl & E & Hd & Hall).
    injection E as <- <-.
    cbn [app skip_space]. rewrite (digit_not_space c Hd).
    destruct (Z.eqb_spec c 45); [contradiction|].
    destruct (Z.eqb_spec c 43); [contradiction|].
    cbn [orb]. rewrite Hd. change (c :: rest ++ r) with ((c :: rest) ++ r).
    now rewrite scan_digits_app.
Qed.

Lemma store_d_small z : in_int z -> store_d z = z.
Proof.
  intros H. unfold store_d.
  assert (Z.max LONG_MIN (Z.min LONG_MAX z) = z) as ->.
  { unfold in_int, INT_MIN, INT_MAX, LONG_MIN, LONG_MAX in *. lia. }
  now apply int_of_small.
Qed.

Lemma in_int_pow z : in_int z -> 0 <= Z.abs z < 10 ^ Z.of_nat 10.
Proof. unfold in_int, INT_MIN, INT_MAX. simpl. lia. Qed.

(** What [%d] prints for an [int] is a numeral of that value. *)
Lemma print_d_numeral z :
  in_int z -> is_numeral (print_d z) = true /\ numeral_value (print_d z) = z.
Proof.
  intros Hz. pose proof (in_int_pow z Hz) as Hb.
  unfold print_d. destruct (Z.ltb_spec z 0) as [Hneg|Hpos].
  - assert (Hn : 0 <= - z < 10 ^ Z.of_nat 10) by lia.
    destruct (print_digits_value 10 (- z) [] Hn ltac:(lia)) as [m Hm].
    pose proof (print_digits_head 10 (- z) [] ltac:(lia) ltac:(discriminate)) as Hh.
    pose proof (print_digits_all 10 (- z) [] ltac:(lia) eq_refl) as Hall.
    unfold is_numeral, numeral_value, digits_value.
    change (45 =? 45) with true. cbn [orb]. rewrite Hm. cbn [fold_left].
    split; [|lia].
    destruct (print_digits 10 (- z) []); [contradiction|exact Hall].
  - assert (Hn : 0 <= z < 10 ^ Z.of_nat 10) by lia.
    destruct (print_digits_value 10 z [] Hn ltac:(lia)) as [m Hm].
    pose proof (print_digits_head 10 z [] ltac:(lia) ltac:(discriminate)) as Hh.
    pose proof (print_digits_all 10 z [] ltac:(lia) eq_refl) as Hall.
    unfold is_numeral, numeral_value, digits_value.
    destruct (print_digits 10 z []) as [|d tl] eqn:E; [contradiction|].
    cbn [digit_ahead] in Hh. pose proof (isdigit_bounds d Hh) as Hdb.
    destruct (Z.eqb_spec d 45); [lia|]. destruct (Z.eqb_spec d 43); [lia|].
    cbn [orb]. split; [exact Hall|]. rewrite Hm. cbn [fold_left]. lia.
Qed.

Lemma scan_d_print z r :
  in_int z -> no_digit_ahead r -> scan_d (print_d z ++ r) = Converted z r.
Proof.
  intros Hz Hr. destruct (print_d_numeral z Hz) as [Hnum Hval].
  rewrite scan_d_numeral by assumption. now rewrite Hval, store_d_small.
Qed.

(** ** Reading tokens *)

Lemma print_d_head z r : in_int z ->
  exists c tl, print_d z ++ r = c :: tl /\ c <> EOF /\ isspace c = false.
Proof.
  intros Hz. unfold print_d. destruct (Z.ltb_spec z 0).
  - eexists _, _. split; [reflexivity|]. split; [discriminate|reflexivity].
  - pose proof (print_digits_head 10 z [] ltac:(lia) ltac:(discriminate)) as Hh.
    destruct (print_digits 10 z []) as [|d tl]; [contradiction|].
    exists d, (tl ++ r). split; [reflexivity|]. cbn in Hh.
    split; [|now apply digit_not_space].
    apply isdigit_bounds in Hh. unfold EOF. lia.
Qed.

Lemma fscanf_token ws (t : file_token) r a0 b0 :
  Forall (fun c => isspace c = true) ws ->
  token_ok t -> no_digit_ahead r ->
  fscanf_d_comma_d (ws ++ raw_token t ++ r) a0 b0
  = (2, store_d (numeral_value (fst t)), store_d (numeral_value (snd t)), r).
Proof.
  intros Hws [Hc Ha] Hr. unfold fscanf_d_comma_d, raw_token.
  rewrite scan_d_space by assumption.
  rewrite <- !app_assoc.
  rewrite scan_d_numeral by (assumption || reflexivity).
  cbn [app]. change (COMMA =? COMMA) with true. cbv iota.
  now rewrite scan_d_numeral.
Qed.

Lemma fscanf_header w h r :
  in_int w -> in_int h ->
  fscanf_d_d (header_line w h ++ r) 0 0 = (2, w, h, NEWLINE :: r).
Proof.
  intros Hw Hh. unfold fscanf_d_d, header_line.
  rewrite <- !app_assoc.
  rewrite scan_d_print by (assumption || reflexivity).
  cbn [app skip_space]. change (isspace SPACE) with true. cbv iota.
  assert (E : scan_d (skip_space (print_d h ++ NEWLINE :: r))
              = Converted h (NEWLINE :: r)).
  { destruct (print_d_head h (NEWLINE :: r) Hh) as (c & tl & E & _ & Hsp).
    rewrite E. cbn [skip_space]. rewrite Hsp. rewrite <- E.
    now apply scan_d_print. }
  now rewrite E.
Qed.

Lemma read_header_line w h r :
  0 < w <= MAX_CANVAS_WIDTH -> 0 < h <= MAX_CANVAS_HEIGHT ->
  read_header (header_line w h ++ r) = Some (w, h, NEWLINE :: r).
Proof.
  unfold MAX_CANVAS_WIDTH, MAX_CANVAS_HEIGHT. intros Hw Hh. unfold read_header.
  rewrite fscanf_header by int_range.
  unfold MAX_CANVAS_WIDTH, MAX_CANVAS_HEIGHT.
  change (2 =? 2) with true. cbn [negb orb].
  destruct (Z.leb_spec w 0); [lia|]. destruct (Z.leb_spec h 0); [lia|].
  destruct (Z.gtb_spec w 1000); [lia|]. destruct (Z.gtb_spec h 1000); [lia|].
  reflexivity.
Qed.

Lemma skip_space_idem f : skip_space (skip_space f) = skip_space f.
Proof.
  induction f as [|c f IH]; [reflexivity|]. cbn.
  destruct (isspace c) eqn:E; [exact IH|]. cbn. now rewrite E.
Qed.

Lemma scan_d_skip_space f : scan_d (skip_space f) = scan_d f.
Proof. unfold scan_d. now rewrite skip_space_idem. Qed.

Lemma no_digit_ahead_app a b :
  a <> [] -> no_digit_ahead a -> no_digit_ahead (a ++ b).
Proof. destruct a; [congruence|]. intros _ H. exact H. Qed.

Lemma is_numeral_nonempty s : is_numeral s = true -> s <> [].
Proof. destruct s; [discriminate|congruence]. Qed.

Lemma fscanf_header_layout ws1 sw ws2 sh r :
  Forall (fun c => isspace c = true) ws1 ->
  Forall (fun c => isspace c = true) ws2 ->
  is_numeral sw = true -> is_numeral sh = true ->
  no_digit_ahead (ws2 ++ sh) -> no_digit_ahead r ->
  fscanf_d_d (ws1 ++ sw ++ ws2 ++ sh ++ r) 0 0
  = (2, store_d (numeral_value sw), store_d (numeral_value sh), r).
Proof.
  intros Hws1 Hws2 Hsw Hsh Hsep Hr. unfold fscanf_d_d.
  rewrite scan_d_space by assumption.
  rewrite scan_d_numeral; [|assumption|].
  - rewrite scan_d_skip_space, scan_d_space by assumption.
    now rewrite scan_d_numeral.
  - rewrite app_assoc. apply no_digit_ahead_app; [|assumption].
    intros E. apply app_eq_nil in E as [_ E].
    now apply is_numeral_nonempty in Hsh.
Qed.

(** The test on what [fscanf] returned and stored for the header. *)
Lemma read_header_guard f n file_width file_height f1 :
  fscanf_d_d f 0 0 = (n, file_width, file_height, f1) ->
  n <> 2 \/ file_width <= 0 \/ file_height <= 0 \/
  file_width > MAX_CANVAS_WIDTH \/ file_height > MAX_CANVAS_HEIGHT ->
  read_header f = None.
Proof.
  intros Hscan Hbad. unfold read_header. rewrite Hscan.
  destruct (Z.eqb_spec n 2); cbn [negb orb]; [|reflexivity].
  destruct (Z.leb_spec file_width 0); cbn [orb]; [reflexivity|].
  destruct (Z.leb_spec file_height 0); cbn [orb]; [reflexivity|].
  destruct (Z.gtb_spec file_width MAX_CANVAS_WIDTH); cbn [orb]; [reflexivity|].
  destruct (Z.gtb_spec file_height MAX_CANVAS_HEIGHT); cbn [orb]; [reflexivity|].
  lia.
Qed.

Lemma load_without_header f g :
  read_header f = None -> load_masterpiece (Some f) g = g.
Proof.
  intros H. unfold load_masterpiece, parse_masterpiece. now rewrite H.
Qed.

(** [%d] converts nothing where no numeral comes after the white space. *)
Lemma scan_d_no_number f :
  number_ahead f = false ->
  scan_d f = InputFailure \/ exists rest, scan_d f = MatchingFailure rest.
Proof.
  unfold number_ahead, scan_d. destruct (skip_space f) as [|c rest]; [now left|].
  intros H. right. cbn [starts_numeral] in H.
  destruct ((c =? 45) || (c =? 43)).
  - destruct rest as [|d rest']; [now eexists|]. rewrite H. now eexists.
  - rewrite H. now eexists.
Qed.

Lemma fscanf_no_first_number f a b :
  number_ahead f = false -> fst (fst (fst (fscanf_d_d f a b))) <> 2.
Proof.
  intros H. unfold fscanf_d_d.
  destruct (scan_d_no_number f H) as [-> | [rest ->]]; cbn; unfold EOF; lia.
Qed.

Lemma fscanf_no_second_number ws sw r a b :
  Forall (fun c => isspace c = true) ws ->
  is_numeral sw = true -> no_digit_ahead r -> number_ahead r = false ->
  fst (fst (fst (fscanf_d_d (ws ++ sw ++ r) a b))) <> 2.
Proof.
  intros Hws Hsw Hr Hnone. unfold fscanf_d_d.
  rewrite scan_d_space by assumption.
  rewrite scan_d_numeral by assumption.
  rewrite scan_d_skip_space.
  destruct (scan_d_no_number r Hnone) as [-> | [rest ->]]; cbn; lia.
Qed.

Lemma read_header_not_two f :
  fst (fst (fst (fscanf_d_d f 0 0))) <> 2 -> read_header f = None.
Proof.
  intros H. destruct (fscanf_d_d f 0 0) as [[[n w] h] f1] eqn:E.
  apply (read_header_guard f n w h f1 E). left. exact H.
Qed.

Lemma sneak_peek_keeps f :
  match f with c :: _ => c <> EOF | [] => True end ->
  snd (sneak_peek_at_file f) = f.
Proof.
  destruct f as [|c f]; [reflexivity|]. intros Hc.
  unfold sneak_peek_at_file, fgetc, ungetc.
  destruct (Z.eqb_spec c EOF); [contradiction|reflexivity].
Qed.

(** The cell the loader computes is the one [decode] describes. *)
Lemma coerce_decode color_val ascii_val :
  mkCell
    (uchar_of (if (ascii_val >=? 0) && (ascii_val <=? 255)
               then ascii_val else SPACE))
    (short_of (if (color_val >=? 0) && (color_val <? COLOR_COUNT)
               then color_val else 7))
  = decode color_val ascii_val.
Proof.
  unfold decode, COLOR_COUNT, SPACE. rewrite !Z.geb_leb. f_equal.
  - destruct (Z.leb_spec 0 ascii_val), (Z.leb_spec ascii_val 255); cbn [andb];
      apply uchar_of_small; lia.
  - destruct (Z.leb_spec 0 color_val), (Z.ltb_spec color_val 8),
      (Z.leb_spec color_val 7); cbn [andb]; try lia; apply short_of_small; lia.
Qed.

Lemma decode_ok color_val ascii_val : cell_ok (decode color_val ascii_val).
Proof.
  unfold cell_ok, decode. cbn [color ch].
  destruct (Z.leb_spec 0 ascii_val), (Z.leb_spec ascii_val 255),
    (Z.leb_spec 0 color_val), (Z.leb_spec color_val 7); cbn [andb]; lia.
Qed.

Lemma read_cell_token fw y x ws (t : file_token) r done old rest :
  Forall (fun c => isspace c = true) ws ->
  token_ok t -> no_digit_ahead r ->
  match r with c :: _ => c <> EOF | [] => True end ->
  0 <= fw <= 1000 -> 0 <= y < 1000 -> 0 <= x < 1000 ->
  Z.of_nat (length done) = y * fw + x ->
  read_cell fw y x (mkReader (ws ++ raw_token t ++ r) (done ++ old :: rest) true)
  = mkReader r (done ++ token_cell t :: rest) true.
Proof.
  intros Hws Ht Hr Hpeek Hfw Hy Hx Hlen. unfold read_cell. cbn [rd_file temp_canvas].
  rewrite fscanf_token by assumption.
  change (2 =? 2) with true. cbn [negb].
  rewrite coerce_decode. fold (token_cell t).
  assert (0 <= y * fw <= 1000 * 1000) by nia.
  rewrite (int_of_small (y * fw)) by int_range.
  rewrite int_of_small by int_range.
  rewrite (store_at_end done rest old) by lia.
  pose proof (sneak_peek_keeps r Hpeek) as Hs.
  destruct (sneak_peek_at_file r) as [c0 f2]. cbn in Hs. now subst f2.
Qed.

(** ** Reading rows *)

Lemma spaced_ahead ts r :
  no_digit_ahead r -> no_eof_ahead r ->
  no_digit_ahead (spaced ts ++ r) /\ no_eof_ahead (spaced ts ++ r).
Proof.
  destruct ts as [|t ts]; [now split|]. intros _ _.
  split; [reflexivity|discriminate].
Qed.

Lemma read_spaced fw y (toks : list file_token) :
  forall (done junk1 junk2 : list Cell) (x : Z) (r : FILE),
    Forall token_ok toks ->
    no_digit_ahead r -> no_eof_ahead r ->
    0 <= fw <= 1000 -> 0 <= y < 1000 ->
    0 <= x -> x + Z.of_nat (length toks) <= 1000 ->
    length junk1 = length toks ->
    Z.of_nat (length done) = y * fw + x ->
    for_loop (length toks) x read_success (read_cell fw y)
      (mkReader (spaced toks ++ r) (done ++ junk1 ++ junk2) true)
    = mkReader r
        (done ++ (token_cell <$> toks) ++ junk2) true.
Proof.
  induction toks as [|[c a] ts IH];
    intros done junk1 junk2 x r Hok Hr Hpeek Hfw Hy Hx Hxn Hj Hlen.
  - destruct junk1; [reflexivity|discriminate].
  - destruct junk1 as [|old junk1]; [discriminate|].
    inversion Hok as [|? ? Ht Hts]; subst.
    cbn [length] in *. cbn [for_loop read_success].
    unfold spaced. cbn [fmap list_fmap concat]. fold (spaced ts).
    destruct (spaced_ahead ts r Hr Hpeek) as [Hd He].
    change ((SPACE :: raw_token (c, a)) ++ spaced ts)
      with ([SPACE] ++ raw_token (c, a) ++ spaced ts).
    rewrite <- !app_assoc. cbn [app].
    change (SPACE :: raw_token (c, a) ++ spaced ts ++ r)
      with ([SPACE] ++ raw_token (c, a) ++ (spaced ts ++ r)).
    rewrite read_cell_token; try assumption; try lia.
    + change (done ++ token_cell (c, a) :: junk1 ++ junk2)
        with (done ++ [token_cell (c, a)] ++ junk1 ++ junk2).
      rewrite (app_assoc done). rewrite IH; try assumption; try lia.
      * now rewrite <- app_assoc.
      * rewrite length_app. cbn [length]. lia.
    + repeat constructor.
Qed.

Lemma join_spaced t ts :
  join_with_space (map raw_token (t :: ts)) = raw_token t ++ spaced ts.
Proof.
  revert t. induction ts as [|t' ts IH]; intros t.
  - cbn. now rewrite app_nil_r.
  - change (join_with_space (map raw_token (t :: t' :: ts)))
      with (raw_token t ++ [SPACE] ++ join_with_space (map raw_token (t' :: ts))).
    rewrite IH. unfold spaced. cbn [fmap list_fmap concat app]. reflexivity.
Qed.

Lemma skip_line_app extra next :
  NEWLINE ∉ extra -> skip_line (extra ++ NEWLINE :: next) = next.
Proof.
  induction extra as [|c extra IH]; intros Hnl; cbn.
  - reflexivity.
  - apply not_elem_of_cons in Hnl as [Hc Hrest].
    destruct (Z.eqb_spec c NEWLINE); [congruence|]. now apply IH.
Qed.

Lemma trailing_ahead extra next :
  trailing extra ->
  no_digit_ahead (extra ++ NEWLINE :: next) /\
  no_eof_ahead (extra ++ NEWLINE :: next).
Proof.
  intros (_ & Hd & Hc). destruct extra as [|c extra]; cbn.
  - split; [reflexivity|discriminate].
  - split; [exact Hd|]. inversion Hc as [|? ? Hc0 _]; subst.
    unfold is_char, EOF in *. lia.
Qed.

Lemma read_row_line fw y toks extra next done junk1 junk2 :
  row_ok fw (toks, extra) ->
  0 < fw <= 1000 -> 0 <= y < 1000 ->
  length junk1 = length toks ->
  Z.of_nat (length done) = y * fw ->
  read_row fw y
    (mkReader (raw_line toks extra ++ next) (done ++ junk1 ++ junk2) true)
  = mkReader next
      (done ++ (token_cell <$> toks) ++ junk2) true.
Proof.
  intros (Hlen & Htoks & Htr) Hfw Hy Hj Hdone. cbn [fst snd] in *.
  unfold read_row, for_upto.
  replace (Z.to_nat fw) with (length toks) by lia.
  destruct toks as [|[c a] ts]; [cbn in Hlen; lia|].
  destruct junk1 as [|old junk1]; [discriminate|].
  inversion Htoks as [|? ? Ht Hts]; subst x l.
  cbn [fst snd] in *.
  destruct (trailing_ahead extra next Htr) as [Hd He].
  unfold raw_line. rewrite join_spaced. rewrite <- !app_assoc.
  cbn [length] in *. cbn [for_loop read_success].
  destruct (spaced_ahead ts (extra ++ [NEWLINE] ++ next) Hd He) as [Hd' He'].
  pose proof (read_cell_token fw y 0 []
                (c, a) (spaced ts ++ extra ++ [NEWLINE] ++ next)
                done old (junk1 ++ junk2)) as Hcell.
  cbn [app] in Hcell. cbn [app]. rewrite Hcell; try assumption; try lia;
    [|constructor].
  change (done ++ token_cell (c, a) :: junk1 ++ junk2)
    with (done ++ [token_cell (c, a)] ++ junk1 ++ junk2).
  rewrite (app_assoc done).
  rewrite read_spaced; try assumption; try lia.
  - cbn [rd_file temp_canvas read_success].
    rewrite skip_line_app by apply Htr.
    now rewrite <- app_assoc.
  - rewrite length_app. cbn [length]. lia.
Qed.

Lemma body_cells_cons toks extra rows :
  body_cells ((toks, extra) :: rows)
  = (token_cell <$> toks) ++ body_cells rows.
Proof. unfold body_cells. cbn [fmap list_fmap concat fst]. apply fmap_app. Qed.

Lemma read_rows fw (rows : list file_row) :
  forall (done junk junk2 : list Cell) (y : Z) (tail : FILE),
    Forall (row_ok fw) rows ->
    0 < fw <= 1000 -> 0 <= y -> y + Z.of_nat (length rows) <= 1000 ->
    Z.of_nat (length junk) = fw * Z.of_nat (length rows) ->
    Z.of_nat (length done) = y * fw ->
    for_loop (length rows) y read_success (read_row fw)
      (mkReader (body_text rows ++ tail) (done ++ junk ++ junk2) true)
    = mkReader tail (done ++ body_cells rows ++ junk2) true.
Proof.
  induction rows as [|[toks extra] rows IH];
    intros done junk junk2 y tail Hok Hfw Hy Hyn Hjunk Hdone.
  - destruct junk; [reflexivity|]. cbn [length] in Hjunk. lia.
  - inversion Hok as [|? ? Hrow Hrows]; subst x l.
    pose proof Hrow as (Hlen & _ & _). cbn [fst] in Hlen.
    cbn [length] in *. cbn [for_loop read_success].
    unfold body_text. cbn [fmap list_fmap concat fst snd]. fold (body_text rows).
    rewrite <- app_assoc.
    rewrite <- (take_drop (length toks) junk), <- (app_assoc (take _ _)).
    rewrite read_row_line; try assumption; try lia.
    + rewrite body_cells_cons, <- (app_assoc _ (body_cells rows)), !(app_assoc done).
      apply IH; try assumption; try lia.
      * rewrite length_drop. nia.
      * rewrite length_app, length_fmap. nia.
    + rewrite length_take. nia.
Qed.

Lemma read_header_bounds f fw fh f1 :
  read_header f = Some (fw, fh, f1) ->
  fscanf_d_d f 0 0 = (2, fw, fh, f1) /\ 0 < fw <= 1000 /\ 0 < fh <= 1000.
Proof.
  unfold read_header, MAX_CANVAS_WIDTH, MAX_CANVAS_HEIGHT.
  destruct (fscanf_d_d f 0 0) as [[[n w] h] r].
  destruct (Z.eqb_spec n 2); cbn [negb orb]; [|discriminate].
  destruct (Z.leb_spec w 0); cbn [orb]; [discriminate|].
  destruct (Z.leb_spec h 0); cbn [orb]; [discriminate|].
  destruct (Z.gtb_spec w 1000); cbn [orb]; [discriminate|].
  destruct (Z.gtb_spec h 1000); cbn [orb]; [discriminate|].
  intros [= <- <- <-]. subst n. repeat split; lia.
Qed.

Lemma parse_rows f fw fh f1 rows tail :
  read_header f = Some (fw, fh, f1) ->
  skip_line f1 = body_text rows ++ tail ->
  Z.of_nat (length rows) = fh ->
  Forall (row_ok fw) rows ->
  parse_masterpiece f = Some (fw, fh, body_cells rows).
Proof.
  intros Hhead Hbody Hlen Hrows.
  destruct (read_header_bounds _ _ _ _ Hhead) as (_ & Hfw & Hfh).
  unfold parse_masterpiece. rewrite Hhead, Hbody.
  rewrite (size_t_of_small fw), (size_t_of_small fh), size_t_of_small
    by (change (2 ^ 64) with 18446744073709551616; nia).
  unfold read_canvas_data, for_upto.
  replace (Z.to_nat fh) with (length rows) by lia.
  pose proof (read_rows fw rows [] (replicate (Z.to_nat (fw * fh)) garbage) []
                0 tail Hrows Hfw) as H.
  cbn [app] in H. rewrite !app_nil_r in H.
  rewrite H; [reflexivity|lia|lia| |reflexivity].
  rewrite length_replicate. nia.
Qed.

(** ** Loops and invariants *)

Lemma for_loop_invariant {St : Type} (P : St -> Prop) guard body :
  (forall i s, P s -> P (body i s)) ->
  forall n i s, P s -> P (for_loop (St:=St) n i guard body s).
Proof.
  intros Hbody. induction n as [|n IH]; intros i s Hs; cbn; [assumption|].
  destruct (guard s); [|assumption]. apply IH. now apply Hbody.
Qed.

(** ** The copy stage *)

Lemma offset_inj cw x y x' y' :
  0 <= x < cw -> 0 <= x' < cw -> 0 <= y -> 0 <= y' ->
  Z.to_nat (y * cw + x) = Z.to_nat (y' * cw + x') -> y = y' /\ x = x'.
Proof.
  intros Hx Hx' Hy Hy' E.
  assert (0 <= y * cw) by nia. assert (0 <= y' * cw) by nia.
  apply Z2Nat.inj in E; [|lia..].
  destruct (Z.lt_trichotomy y y') as [Hlt|[->|Hgt]]; [|lia|].
  - assert ((y + 1) * cw <= y' * cw) by (apply Z.mul_le_mono_nonneg_r; lia). lia.
  - assert ((y' + 1) * cw <= y * cw) by (apply Z.mul_le_mono_nonneg_r; lia). lia.
Qed.

Section CopyStage.

Variables (g : Globals) (fw : Z) (temp : list Cell).
Hypothesis Hok : canvas_ok g.
Hypothesis Hfw : 0 < fw <= 1000.

Local Abbreviation Wd := (canvas_width (g_app g)).
Local Abbreviation Ht := (canvas_height (g_app g)).

Lemma copy_cell_inside y x buf :
  inside g x y ->
  copy_cell g fw temp y x buf = store buf (y * Wd + x) (deref temp (y * fw + x)).
Proof.
  intros Hin. unfold copy_cell. rewrite find_spot_inside by assumption.
  destruct Hok as (Hw & Hh & _), Hin as [Hx Hy]. unfold_limits.
  assert (0 <= y * fw <= 1000 * 1000) by nia.
  rewrite (int_of_small (y * fw)) by int_range.
  rewrite int_of_small by int_range.
  reflexivity.
Qed.

(** The inner loop, from column [x0] for [n] columns of row [y]. *)
Lemma copy_row_lookup y (n : nat) :
  0 <= y < Ht ->
  forall (x0 : Z) (buf : list Cell),
    0 <= x0 -> x0 + Z.of_nat n <= Wd ->
    length buf = length (canvas (g_app g)) ->
    let buf' := for_loop n x0 always (copy_cell g fw temp y) buf in
    length buf' = length buf /\
    forall x' y', inside g x' y' ->
      buf' !! Z.to_nat (y' * Wd + x')
      = if decide (y' = y /\ x0 <= x' < x0 + Z.of_nat n)
        then Some (deref temp (y * fw + x'))
        else buf !! Z.to_nat (y' * Wd + x').
Proof.
  intros Hy. induction n as [|n IH]; intros x0 buf Hx0 Hn Hlen; cbn zeta.
  - cbn [for_loop]. split; [reflexivity|]. intros x' y' _.
    destruct (decide _) as [[_ ?]|]; [lia|reflexivity].
  - cbn [for_loop always].
    assert (Hin : inside g x0 y) by (unfold inside; lia).
    rewrite copy_cell_inside by assumption.
    set (buf1 := store buf _ _).
    assert (Hlen1 : length buf1 = length (canvas (g_app g))).
    { unfold buf1. now rewrite length_store. }
    destruct (IH (x0 + 1) buf1 ltac:(lia) ltac:(lia) Hlen1) as [IHlen IHget].
    split; [rewrite IHlen; apply length_store|].
    intros x' y' Hin'. rewrite IHget by assumption.
    assert (Hbuf : in_buffer buf (y * Wd + x0)).
    { unfold in_buffer. rewrite Hlen. now apply offset_in_buffer. }
    unfold buf1. rewrite lookup_store by assumption.
    destruct Hin as [Hx Hy0], Hin' as [Hx' Hy'].
    destruct (decide (y' = y /\ x0 + 1 <= x' < x0 + 1 + Z.of_nat n)) as [[-> ?]|Hno].
    + destruct (decide _) as [|Hc]; [reflexivity|]. exfalso. apply Hc. lia.
    + destruct (decide (Z.to_nat (y * Wd + x0) = Z.to_nat (y' * Wd + x')))
        as [E|Hne].
      * apply offset_inj in E as [-> ->]; try lia.
        destruct (decide _) as [|Hc]; [reflexivity|]. exfalso. apply Hc. lia.
      * destruct (decide _) as [[-> ?]|]; [|reflexivity].
        exfalso. assert (x' = x0) as -> by lia. now apply Hne.
Qed.

(** The outer loop, from row [y0] for [m] rows of [cwid] columns. *)
Lemma copy_rows_lookup cwid (m : nat) :
  0 <= cwid <= Wd ->
  forall (y0 : Z) (buf : list Cell),
    0 <= y0 -> y0 + Z.of_nat m <= Ht ->
    length buf = length (canvas (g_app g)) ->
    let buf' :=
      for_loop m y0 always
        (fun y buf => for_upto cwid always (copy_cell g fw temp y) buf) buf in
    length buf' = length buf /\
    forall x' y', inside g x' y' ->
      buf' !! Z.to_nat (y' * Wd + x')
      = if decide (y0 <= y' < y0 + Z.of_nat m /\ x' < cwid)
        then Some (deref temp (y' * fw + x'))
        else buf !! Z.to_nat (y' * Wd + x').
Proof.
  intros Hcw. induction m as [|m IH]; intros y0 buf Hy0 Hm Hlen; cbn zeta.
  - cbn [for_loop]. split; [reflexivity|]. intros x' y' _.
    destruct (decide _) as [[? _]|]; [lia|reflexivity].
  - cbn [for_loop always]. unfold for_upto at 2.
    destruct (copy_row_lookup y0 (Z.to_nat cwid) ltac:(lia)
                0 buf ltac:(lia) ltac:(lia) Hlen) as [Hlen1 Hget1].
    set (buf1 := for_loop (Z.to_nat cwid) 0 always (copy_cell g fw temp y0) buf) in *.
    destruct (IH (y0 + 1) buf1 ltac:(lia) ltac:(lia) ltac:(congruence))
      as [IHlen IHget].
    split; [congruence|].
    intros x' y' Hin'. rewrite IHget, Hget1 by assumption.
    destruct Hin' as [Hx' Hy'].
    destruct (decide (y0 + 1 <= y' < y0 + 1 + Z.of_nat m /\ x' < cwid)) as [[? ?]|Hno].
    + destruct (decide _) as [|Hc]; [reflexivity|]. exfalso. apply Hc. lia.
    + destruct (decide (y' = y0 /\ 0 <= x' < 0 + Z.of_nat (Z.to_nat cwid)))
        as [[-> ?]|Hno'].
      * destruct (decide _) as [|Hc]; [reflexivity|]. exfalso. apply Hc. lia.
      * destruct (decide _) as [[? ?]|]; [|reflexivity].
        exfalso. destruct (decide (y' = y0)) as [->|]; [apply Hno'|apply Hno]; lia.
Qed.

Lemma copy_overlap_lookup fh :
  0 < fh <= 1000 ->
  length (copy_overlap g fw fh temp) = length (canvas (g_app g)) /\
  forall x y, inside g x y ->
    copy_overlap g fw fh temp !! Z.to_nat (y * Wd + x)
    = if (x <? Z.min fw Wd) && (y <? Z.min fh Ht)
      then Some (deref temp (y * fw + x))
      else canvas (g_app g) !! Z.to_nat (y * Wd + x).
Proof.
  intros Hfh. pose proof Hok as (Hw & Hh & _).
  unfold copy_overlap, for_upto at 1.
  assert (Ecw : (if fw <? Wd then fw else Wd) = Z.min fw Wd)
    by (destruct (Z.ltb_spec fw Wd); lia).
  assert (Ech : (if fh <? Ht then fh else Ht) = Z.min fh Ht)
    by (destruct (Z.ltb_spec fh Ht); lia).
  rewrite Ecw, Ech.
  destruct (copy_rows_lookup (Z.min fw Wd) (Z.to_nat (Z.min fh Ht)) ltac:(lia)
              0 (canvas (g_app g)) ltac:(lia) ltac:(lia) eq_refl) as [Hlen Hget].
  split; [exact Hlen|].
  intros x y Hin. rewrite Hget by assumption. destruct Hin as [Hx Hy].
  destruct (Z.ltb_spec x (Z.min fw Wd)); destruct (Z.ltb_spec y (Z.min fh Ht));
    cbn [andb]; destruct (decide _) as [[? ?]|Hc]; try reflexivity; try lia;
    exfalso; apply Hc; lia.
Qed.

End CopyStage.

Lemma deref_in_buffer buf p :
  in_buffer buf p -> buf !! Z.to_nat p = Some (deref buf p).
Proof.
  intros [Hlo Hhi]. unfold deref. destruct (Z.ltb_spec p 0); [lia|].
  destruct (lookup_lt_is_Some_2 buf (Z.to_nat p) ltac:(lia)) as [c ->].
  reflexivity.
Qed.

(** ** The parse stage keeps the temporary grid's size *)

Lemma read_cell_length fw y x r :
  length (temp_canvas (read_cell fw y x r)) = length (temp_canvas r).
Proof.
  unfold read_cell. destruct (fscanf_d_comma_d _ _ _) as [[[n c] a] f1].
  destruct (negb (n =? 2)); [reflexivity|].
  destruct (sneak_peek_at_file f1). cbn. apply length_store.
Qed.

Lemma read_row_length fw y r :
  length (temp_canvas (read_row fw y r)) = length (temp_canvas r).
Proof.
  unfold read_row, for_upto. cbn [temp_canvas].
  apply (for_loop_invariant
           (fun r' => length (temp_canvas r') = length (temp_canvas r)));
    [|reflexivity].
  intros i s Hs. now rewrite read_cell_length.
Qed.

Lemma read_canvas_data_length fw fh r :
  length (temp_canvas (read_canvas_data fw fh r)) = length (temp_canvas r).
Proof.
  unfold read_canvas_data, for_upto.
  apply (for_loop_invariant
           (fun r' => length (temp_canvas r') = length (temp_canvas r)));
    [|reflexivity].
  intros i s Hs. now rewrite read_row_length.
Qed.

Lemma parse_masterpiece_Some f fw fh temp :
  parse_masterpiece f = Some (fw, fh, temp) ->
  0 < fw <= 1000 /\ 0 < fh <= 1000 /\ Z.of_nat (length temp) = fw * fh.
Proof.
  unfold parse_masterpiece.
  destruct (read_header f) as [[[w h] f1]|] eqn:Hhead; [|discriminate].
  destruct (read_header_bounds _ _ _ _ Hhead) as (_ & Hw & Hh).
  destruct (negb _); [discriminate|]. intros [= <- <- <-].
  split; [assumption|]. split; [assumption|].
  rewrite read_canvas_data_length. cbn [temp_canvas].
  rewrite length_replicate.
  rewrite (size_t_of_small w), (size_t_of_small h), size_t_of_small
    by (change (2 ^ 64) with 18446744073709551616; nia).
  nia.
Qed.

Lemma temp_in_buffer temp fw fh x y :
  Z.of_nat (length temp) = fw * fh ->
  0 <= x < fw -> 0 <= y < fh -> in_buffer temp (y * fw + x).
Proof. intros Hlen Hx Hy. unfold in_buffer. rewrite Hlen. nia. Qed.

(** ** Saving *)

Lemma seqZ_step x (n : nat) :
  seqZ x (Z.of_nat (S n)) = x :: seqZ (x + 1) (Z.of_nat n).
Proof.
  rewrite seqZ_cons by lia. f_equal. f_equal; lia.
Qed.

Lemma save_cell_inside g y x f :
  canvas_ok g -> inside g x y ->
  save_cell g y x f
  = f ++ token (deref (canvas (g_app g)) (y * canvas_width (g_app g) + x))
      ++ (if x <? canvas_width (g_app g) - 1 then [SPACE] else []).
Proof.
  intros Hok Hin. unfold save_cell. rewrite find_spot_inside by assumption.
  destruct Hok as (Hw & _). unfold MAX_CANVAS_WIDTH in Hw.
  rewrite int_of_small by int_range.
  unfold fprintf_d_comma_d, fputc, token.
  destruct (_ <? _); rewrite <- ?app_assoc; [reflexivity|].
  now rewrite !app_nil_r.
Qed.

Lemma save_cols g y (n : nat) :
  canvas_ok g -> 0 <= y < canvas_height (g_app g) ->
  forall (x : Z) (f : FILE),
    0 <= x -> x + Z.of_nat n = canvas_width (g_app g) ->
    for_loop n x always (save_cell g y) f
    = f ++ join_with_space
             (map token
                ((fun x => deref (canvas (g_app g))
                                 (y * canvas_width (g_app g) + x))
                   <$> seqZ x (Z.of_nat n))).
Proof.
  intros Hok Hy. induction n as [|n IH]; intros x f Hx Hn.
  - cbn. now rewrite app_nil_r.
  - cbn [for_loop always]. rewrite seqZ_step.
    rewrite save_cell_inside by (assumption || (unfold inside; lia)).
    rewrite IH by lia. cbn [fmap list_fmap map].
    destruct n as [|n].
    + cbn. destruct (Z.ltb_spec x (canvas_width (g_app g) - 1)); [lia|].
      now rewrite !app_nil_r.
    + destruct (Z.ltb_spec x (canvas_width (g_app g) - 1)); [|lia].
      rewrite (seqZ_step (x + 1) n). cbn [fmap list_fmap map join_with_space].
      now rewrite <- !app_assoc.
Qed.

Lemma save_row_line g y f :
  canvas_ok g -> 0 <= y < canvas_height (g_app g) ->
  save_row g y f = f ++ row_line (row_cells g y).
Proof.
  intros Hok Hy. unfold save_row, for_upto, fputc, row_line, row_cells.
  pose proof Hok as (Hw & _).
  rewrite save_cols by (assumption || lia).
  rewrite Z2Nat.id by lia. now rewrite <- app_assoc.
Qed.

Lemma save_rows g (n : nat) :
  canvas_ok g ->
  forall (y : Z) (f : FILE),
    0 <= y -> y + Z.of_nat n = canvas_height (g_app g) ->
    for_loop n y always (save_row g) f
    = f ++ concat ((fun y => row_line (row_cells g y)) <$> seqZ y (Z.of_nat n)).
Proof.
  intros Hok. induction n as [|n IH]; intros y f Hy Hn.
  - cbn. now rewrite app_nil_r.
  - cbn [for_loop always]. rewrite seqZ_step.
    rewrite save_row_line by (assumption || lia).
    rewrite IH by lia. cbn [fmap list_fmap concat].
    now rewrite <- !app_assoc.
Qed.

Lemma save_is_serialize g d :
  canvas_ok g -> save_masterpiece true g d = Some (serialize_spec g).
Proof.
  intros Hok. pose proof Hok as (_ & Hh & _).
  unfold save_masterpiece, serialize_spec, for_upto, fprintf_d_d_nl, header_line.
  cbn [negb]. f_equal. rewrite save_rows by (assumption || lia).
  rewrite Z2Nat.id by lia. reflexivity.
Qed.

(** ** The rows of a canvas *)

Lemma row_cells_length g y :
  0 <= canvas_width (g_app g) ->
  Z.of_nat (length (row_cells g y)) = canvas_width (g_app g).
Proof. intros H. unfold row_cells. rewrite length_fmap, length_seqZ. lia. Qed.

Lemma row_cells_lookup g x y :
  canvas_ok g -> inside g x y ->
  row_cells g y !! Z.to_nat x = cell_at g x y.
Proof.
  intros Hok Hin. unfold row_cells, cell_at. rewrite list_lookup_fmap.
  destruct Hin as [Hx Hy].
  rewrite lookup_seqZ_lt by lia. cbn [fmap option_fmap option_map].
  rewrite Z2Nat.id, Z.add_0_l by lia.
  symmetry. apply deref_in_buffer. apply offset_in_buffer; [assumption|].
  unfold inside. lia.
Qed.

Lemma row_cells_chunk g y :
  canvas_ok g -> 0 <= y < canvas_height (g_app g) ->
  row_cells g y
  = take (Z.to_nat (canvas_width (g_app g)))
         (drop (Z.to_nat y * Z.to_nat (canvas_width (g_app g)))%nat
               (canvas (g_app g))).
Proof.
  intros Hok Hy. pose proof Hok as (Hw & Hh & Hlen).
  apply list_eq. intros i. unfold row_cells. rewrite list_lookup_fmap.
  destruct (decide (Z.of_nat i < canvas_width (g_app g))) as [Hi|Hi].
  - rewrite lookup_seqZ_lt by lia. cbn [fmap option_fmap option_map].
    rewrite lookup_take_lt, lookup_drop by lia.
    rewrite Z.add_0_l.
    assert (Hin : inside g (Z.of_nat i) y) by (unfold inside; lia).
    rewrite <- (deref_in_buffer _ _ (offset_in_buffer g _ _ Hok Hin)).
    f_equal. nia.
  - rewrite lookup_seqZ_ge by lia. rewrite lookup_take_ge by lia. reflexivity.
Qed.

Lemma rows_concat g (n : nat) :
  canvas_ok g -> Z.of_nat n <= canvas_height (g_app g) ->
  concat (row_cells g <$> seqZ 0 (Z.of_nat n))
  = take (n * Z.to_nat (canvas_width (g_app g)))%nat (canvas (g_app g)).
Proof.
  intros Hok. induction n as [|n IH]; intros Hn.
  - reflexivity.
  - rewrite seqZ_S, fmap_app, concat_app, IH by lia.
    cbn [fmap list_fmap concat]. rewrite app_nil_r.
    rewrite row_cells_chunk by (assumption || lia).
    rewrite Z.add_0_l, Nat2Z.id.
    rewrite take_take_drop. f_equal. lia.
Qed.

Lemma rows_listing g :
  canvas_ok g ->
  concat (row_cells g <$> seqZ 0 (canvas_height (g_app g))) = canvas (g_app g).
Proof.
  intros Hok. pose proof Hok as (Hw & Hh & Hlen).
  rewrite <- (Z2Nat.id (canvas_height (g_app g))) at 1 by lia.
  rewrite rows_concat by (assumption || lia).
  apply take_ge. nia.
Qed.

Lemma deref_ok buf p : Forall cell_ok buf -> cell_ok (deref buf p).
Proof.
  intros Hall. unfold deref.
  assert (Hg : cell_ok garbage) by (unfold cell_ok; cbn; lia).
  destruct (p <? 0); [exact Hg|].
  destruct (buf !! Z.to_nat p) as [c|] eqn:E; [|exact Hg].
  cbn. exact (proj1 (Forall_lookup _ _) Hall _ _ E).
Qed.

Lemma row_cells_ok g y :
  Forall cell_ok (canvas (g_app g)) -> Forall cell_ok (row_cells g y).
Proof.
  intros Hall. unfold row_cells. apply Forall_fmap, Forall_forall.
  intros x _. cbn. now apply deref_ok.
Qed.

Lemma row_line_raw cells :
  row_line cells = raw_line (cell_numbers <$> cells) [].
Proof.
  unfold row_line, raw_line. f_equal.
  induction cells as [|c cells IH]; [reflexivity|].
  destruct cells as [|c' cells]; [reflexivity|].
  cbn [fmap list_fmap map join_with_space] in *. now rewrite IH.
Qed.

Lemma cell_numbers_ok c : cell_ok c -> token_ok (cell_numbers c).
Proof.
  intros [Hc Ha]. unfold token_ok, cell_numbers. cbn [fst snd].
  split; apply print_d_numeral; int_range.
Qed.

Lemma decode_numbers cells :
  Forall cell_ok cells -> token_cell <$> (cell_numbers <$> cells) = cells.
Proof.
  induction 1 as [|[a c] cells [Hc Ha] _ IH]; [reflexivity|].
  cbn [fmap list_fmap] in *. rewrite IH. f_equal.
  unfold token_cell, decode, cell_numbers. cbn [fst snd color ch] in *.
  destruct (print_d_numeral c ltac:(int_range)) as [_ ->].
  destruct (print_d_numeral a ltac:(int_range)) as [_ ->].
  rewrite !store_d_small by int_range.
  destruct (Z.leb_spec 0 a), (Z.leb_spec a 255),
    (Z.leb_spec 0 c), (Z.leb_spec c 7); try lia. reflexivity.
Qed.

Lemma canvas_rows_text g (l : list Z) :
  concat ((fun y => row_line (row_cells g y)) <$> l)
  = body_text ((fun y => (cell_numbers <$> row_cells g y, [])) <$> l).
Proof.
  unfold body_text. induction l as [|y l IH]; [reflexivity|].
  cbn [fmap list_fmap concat fst snd] in *. now rewrite IH, row_line_raw.
Qed.

Lemma canvas_rows_cells g (l : list Z) :
  Forall cell_ok (canvas (g_app g)) ->
  body_cells ((fun y => (cell_numbers <$> row_cells g y, [])) <$> l)
  = concat (row_cells g <$> l).
Proof.
  intros Hall. induction l as [|y l IH]; [reflexivity|].
  cbn [fmap list_fmap concat]. rewrite body_cells_cons, IH.
  now rewrite decode_numbers by now apply row_cells_ok.
Qed.

Lemma canvas_rows_ok g :
  canvas_ok g -> Forall cell_ok (canvas (g_app g)) ->
  Forall (row_ok (canvas_width (g_app g))) (canvas_rows g).
Proof.
  intros Hok Hall. pose proof Hok as (Hw & _).
  unfold canvas_rows. apply Forall_fmap, Forall_forall. intros y _.
  unfold row_ok. cbn [fst snd compose]. split; [|split].
  - rewrite length_fmap. apply row_cells_length. lia.
  - apply Forall_fmap. eapply Forall_impl; [apply (row_cells_ok g y Hall)|].
    intros c Hc. now apply cell_numbers_ok.
  - split; [apply not_elem_of_nil|]. split; [exact I|constructor].
Qed.

Lemma parse_saved g :
  canvas_ok g -> Forall cell_ok (canvas (g_app g)) ->
  parse_masterpiece (serialize_spec g)
  = Some (canvas_width (g_app g), canvas_height (g_app g), canvas (g_app g)).
Proof.
  intros Hok Hall. pose proof Hok as (Hw & Hh & Hlen).
  unfold serialize_spec. rewrite canvas_rows_text. fold (canvas_rows g).
  assert (Ecells : body_cells (canvas_rows g) = canvas (g_app g)).
  { unfold canvas_rows. rewrite (canvas_rows_cells g _ Hall).
    now apply rows_listing. }
  rewrite <- Ecells at 1.
  apply (parse_rows _ _ _ (NEWLINE :: body_text (canvas_rows g)) _ []).
  - now apply read_header_line.
  - cbn. now rewrite app_nil_r.
  - unfold canvas_rows. rewrite length_fmap, length_seqZ. lia.
  - now apply canvas_rows_ok.
Qed.

Lemma copy_overlap_same_size g temp :
  canvas_ok g -> length temp = length (canvas (g_app g)) ->
  copy_overlap g (canvas_width (g_app g)) (canvas_height (g_app g)) temp = temp.
Proof.
  intros Hok Hlen. pose proof Hok as (Hw & Hh & Hcl).
  unfold MAX_CANVAS_WIDTH, MAX_CANVAS_HEIGHT in *.
  destruct (copy_overlap_lookup g (canvas_width (g_app g)) temp Hok Hw
              (canvas_height (g_app g)) Hh) as [Hl Hget].
  apply list_eq. intros i.
  destruct (decide (i < length temp)%nat) as [Hi|Hi].
  - set (w := canvas_width (g_app g)) in *. set (h := canvas_height (g_app g)) in *.
    pose proof (Z.div_mod (Z.of_nat i) w ltac:(lia)) as Hdm.
    pose proof (Z.mod_pos_bound (Z.of_nat i) w ltac:(lia)) as Hmod.
    assert (Hq : 0 <= Z.of_nat i / w < h).
    { split; [apply Z.div_pos; lia|]. apply Z.div_lt_upper_bound; lia. }
    assert (Ei : i = Z.to_nat (Z.of_nat i / w * w + Z.of_nat i mod w)) by lia.
    rewrite Ei. rewrite Hget by (unfold inside; fold w h; lia).
    rewrite !Z.min_id.
    destruct (Z.ltb_spec (Z.of_nat i mod w) w); [|lia].
    destruct (Z.ltb_spec (Z.of_nat i / w) h); [|lia]. cbn [andb].
    symmetry. apply deref_in_buffer. unfold in_buffer. lia.
  - rewrite !lookup_ge_None_2; [reflexivity|lia..].
Qed.

(** ** Files with extra content *)

Lemma without_extras_cells rows :
  body_cells (without_extras rows) = body_cells rows.
Proof.
  unfold body_cells, without_extras. f_equal. f_equal.
  induction rows as [|row rows IH]; [reflexivity|].
  cbn [fmap list_fmap fst] in *. now rewrite IH.
Qed.

Lemma without_extras_ok fw rows :
  Forall (row_ok fw) rows -> Forall (row_ok fw) (without_extras rows).
Proof.
  intros H. unfold without_extras. apply Forall_fmap.
  eapply Forall_impl; [exact H|]. intros [toks extra] (Hl & Ht & _).
  unfold row_ok. cbn [fst snd compose] in *. split; [assumption|].
  split; [assumption|]. split; [apply not_elem_of_nil|]. split; [exact I|constructor].
Qed.

(** ** Failed reads *)

Lemma for_loop_stop {St : Type} guard body (n : nat) i (s : St) :
  guard s = false -> for_loop n i guard body s = s.
Proof. intros H. destruct n; cbn; [reflexivity|]. now rewrite H. Qed.

Lemma for_loop_add {St : Type} guard body (a b : nat) :
  forall i (s : St),
    for_loop (a + b) i guard body s
    = for_loop b (i + Z.of_nat a) guard body (for_loop a i guard body s).
Proof.
  induction a as [|a IH]; intros i s.
  - cbn [Nat.add for_loop]. f_equal. lia.
  - cbn [Nat.add for_loop]. destruct (guard s) eqn:Hg.
    + rewrite IH. f_equal. lia.
    + now rewrite for_loop_stop.
Qed.

Lemma read_cell_fails fw y x r :
  token_missing (rd_file r) -> read_success (read_cell fw y x r) = false.
Proof.
  unfold token_missing, read_cell.
  destruct (fscanf_d_comma_d (rd_file r) 0 32) as [[[n c] a] f1]. cbn [fst].
  intros Hn. destruct (Z.eqb_spec n 2); [contradiction|reflexivity].
Qed.

Lemma read_joined fw y (toks : list file_token) done junk1 junk2 r :
  Forall token_ok toks ->
  no_digit_ahead r -> no_eof_ahead r ->
  0 <= fw <= 1000 -> 0 <= y < 1000 -> Z.of_nat (length toks) <= 1000 ->
  length junk1 = length toks ->
  Z.of_nat (length done) = y * fw ->
  for_loop (length toks) 0 read_success (read_cell fw y)
    (mkReader (partial_row toks ++ r) (done ++ junk1 ++ junk2) true)
  = mkReader r
      (done ++ (token_cell <$> toks) ++ junk2) true.
Proof.
  intros Htoks Hd He Hfw Hy Hn Hj Hdone.
  destruct toks as [|[c a] ts].
  { destruct junk1; [reflexivity|discriminate]. }
  destruct junk1 as [|old junk1]; [discriminate|].
  inversion Htoks as [|? ? Ht Hts]; subst x l.
  cbn [fst snd] in *. unfold partial_row. rewrite join_spaced, <- app_assoc.
  cbn [length] in *. cbn [for_loop read_success].
  destruct (spaced_ahead ts r Hd He) as [Hd' He'].
  pose proof (read_cell_token fw y 0 [] (c, a) (spaced ts ++ r)
                done old (junk1 ++ junk2)) as Hcell.
  cbn [app] in Hcell. cbn [app]. rewrite Hcell; try assumption; try lia;
    [|constructor].
  change (done ++ token_cell (c, a) :: junk1 ++ junk2)
    with (done ++ [token_cell (c, a)] ++ junk1 ++ junk2).
  rewrite (app_assoc done).
  rewrite read_spaced; try assumption; try lia.
  - now rewrite <- app_assoc.
  - rewrite length_app. cbn [length]. lia.
Qed.

(** A row that stops before its last token makes the row's loop fail. *)
Lemma read_row_short fw y toks bad done junk :
  Forall token_ok toks ->
  (toks <> [] -> no_digit_ahead bad) -> no_eof_ahead bad -> token_missing bad ->
  0 < fw <= 1000 -> 0 <= y < 1000 ->
  Z.of_nat (length toks) < fw ->
  (length toks <= length junk)%nat ->
  Z.of_nat (length done) = y * fw ->
  read_success
    (read_row fw y (mkReader (partial_row toks ++ bad) (done ++ junk) true))
  = false.
Proof.
  intros Htoks Hd He Hbad Hfw Hy Hlen Hj Hdone.
  unfold read_row, for_upto. cbn [read_success].
  destruct (decide (toks = [])) as [->|Hne].
  - destruct (Z.to_nat fw) as [|n] eqn:E; [lia|].
    cbn [for_loop read_success partial_row map join_with_space app].
    rewrite for_loop_stop; now apply read_cell_fails.
  - replace (Z.to_nat fw)
      with (length toks + S (Z.to_nat fw - length toks - 1))%nat by lia.
    rewrite for_loop_add.
    rewrite <- (take_drop (length toks) junk).
    rewrite read_joined; try assumption; try lia;
      [|now apply Hd|rewrite length_take; lia].
    cbn [for_loop read_success].
    rewrite for_loop_stop; now apply read_cell_fails.
Qed.

Lemma body_cells_length fw rows :
  Forall (row_ok fw) rows ->
  Z.of_nat (length (body_cells rows)) = Z.of_nat (length rows) * fw.
Proof.
  induction 1 as [|[toks extra] rows (Hl & _) _ IH]; [reflexivity|].
  rewrite body_cells_cons, length_app, length_fmap. cbn [fst length] in *. lia.
Qed.

Lemma parse_short f fw fh f1 rows toks bad :
  read_header f = Some (fw, fh, f1) ->
  skip_line f1 = body_text rows ++ partial_row toks ++ bad ->
  Z.of_nat (length rows) < fh -> Forall (row_ok fw) rows ->
  Z.of_nat (length toks) < fw ->
  Forall token_ok toks ->
  (toks <> [] -> no_digit_ahead bad) -> no_eof_ahead bad ->
  token_missing bad ->
  parse_masterpiece f = None.
Proof.
  intros Hhead Hbody Hrows Hok Hlen Htoks Hd He Hbad.
  destruct (read_header_bounds _ _ _ _ Hhead) as (_ & Hfw & Hfh).
  unfold parse_masterpiece. rewrite Hhead, Hbody.
  rewrite (size_t_of_small fw), (size_t_of_small fh), size_t_of_small
    by (change (2 ^ 64) with 18446744073709551616; nia).
  unfold read_canvas_data, for_upto.
  replace (Z.to_nat fh)
    with (length rows + S (Z.to_nat fh - length rows - 1))%nat by lia.
  rewrite for_loop_add.
  set (temp := replicate (Z.to_nat (fw * fh)) garbage).
  assert (Htemp : Z.of_nat (length temp) = fw * fh).
  { unfold temp. rewrite length_replicate. nia. }
  rewrite <- (take_drop (Z.to_nat (fw * Z.of_nat (length rows))) temp).
  pose proof (read_rows fw rows []
                (take (Z.to_nat (fw * Z.of_nat (length rows))) temp)
                (drop (Z.to_nat (fw * Z.of_nat (length rows))) temp)
                0 (partial_row toks ++ bad) Hok Hfw) as H.
  cbn [app] in H.
  rewrite H; [|lia|lia|rewrite length_take; nia|reflexivity].
  cbn [for_loop read_success].
  assert (Hfail :
    read_success
      (read_row fw (0 + Z.of_nat (length rows))
         (mkReader (partial_row toks ++ bad)
            (body_cells rows
             ++ drop (Z.to_nat (fw * Z.of_nat (length rows))) temp) true))
    = false).
  { apply read_row_short; try assumption; try lia.
    - rewrite length_drop. nia.
    - rewrite (body_cells_length fw) by assumption. lia. }
  rewrite for_loop_stop by exact Hfail. now rewrite Hfail.
Qed.

(** ** The canvas invariant *)

Create HintDb canvas_inv.

(** The canvas that [start_stuff] sets up is a canvas of the data model,
    and it is blank. *)
Lemma start_stuff_ok COLS LINES :
  20 <= COLS -> 10 <= LINES -> in_int COLS -> in_int LINES ->
  exists g, start_stuff true COLS LINES true = Some g /\ canvas_ok g /\
    canvas (g_app g)
    = replicate (Z.to_nat (canvas_width (g_app g) * canvas_height (g_app g)))
                (mkCell SPACE 7).
Proof.
  intros HC HL HCi HLi. unfold start_stuff. cbn [negb].
  destruct (Z.ltb_spec COLS 20); [lia|]. destruct (Z.ltb_spec LINES 10); [lia|].
  cbn [orb]. unfold canvas_fit. cbn [negb]. eexists. split; [reflexivity|].
  unfold canvas_ok, STATUS_LINES_TOP, STATUS_LINES_BOTTOM.
  cbn [g_app canvas canvas_width canvas_height].
  rewrite (int_of_small (LINES - _)) by int_range.
  unfold_limits.
  set (w := if COLS <? 1000 then COLS else 1000).
  set (h := if LINES - (2 + 1) <? 1000 then LINES - (2 + 1) else 1000).
  assert (Hw : 0 < w <= 1000) by (unfold w; destruct (Z.ltb_spec COLS 1000); lia).
  assert (Hh : 0 < h <= 1000)
    by (unfold h; destruct (Z.ltb_spec (LINES - (2 + 1)) 1000); lia).
  rewrite (size_t_of_small w), (size_t_of_small h), size_t_of_small
    by (change (2 ^ 64) with 18446744073709551616; nia).
  unfold for_upto.
  pose proof (fill_loop (mkCell SPACE 7) (Z.to_nat (w * h)) []
                (replicate (Z.to_nat (w * h)) garbage) 0 eq_refl
                (length_replicate _ _)) as Hfill.
  cbn [app] in Hfill. rewrite Hfill, length_replicate.
  repeat split; nia.
Qed.

Lemma start_stuff_fails initscr_ok COLS LINES malloc_ok :
  start_stuff initscr_ok COLS LINES malloc_ok = None <->
  initscr_ok = false \/ COLS < 20 \/ LINES < 10 \/ malloc_ok = false.
Proof.
  unfold start_stuff, canvas_fit.
  destruct initscr_ok; cbn [negb]; [|intuition].
  destruct (Z.ltb_spec COLS 20); cbn [orb]; [intuition|].
  destruct (Z.ltb_spec LINES 10); cbn [orb]; [intuition|].
  destruct malloc_ok; cbn [negb]; [|intuition].
  split; [discriminate|]. intros [?|[?|[?|?]]]; (discriminate || lia).
Qed.

Lemma with_canvas_ok g buf :
  canvas_ok g -> length buf = length (canvas (g_app g)) ->
  canvas_ok (with_canvas g buf).
Proof.
  intros (Hw & Hh & Hlen) Hbuf. unfold canvas_ok.
  cbn [with_canvas g_app canvas canvas_width canvas_height].
  rewrite Hbuf. auto.
Qed.

Lemma start_with_blank_canvas_ok g :
  canvas_ok g -> canvas_ok (start_with_blank_canvas g).
Proof.
  intros Hok. pose proof Hok as (Hw & Hh & Hlen). unfold_limits.
  apply with_canvas_ok; [assumption|]. unfold for_upto.
  rewrite (size_t_of_small (canvas_width _)),
    (size_t_of_small (canvas_height _)), size_t_of_small
    by (change (2 ^ 64) with 18446744073709551616; nia).
  pose proof (fill_loop (mkCell SPACE (current_color (g_app g)))
                (Z.to_nat (canvas_width (g_app g) * canvas_height (g_app g)))
                [] (canvas (g_app g)) 0 eq_refl ltac:(lia)) as Hfill.
  cbn [app] in Hfill. rewrite Hfill, length_replicate. lia.
Qed.

#[local] Hint Resolve with_canvas_ok length_store : canvas_inv.

Lemma paint_stuff_ok g : canvas_ok g -> canvas_ok (paint_stuff g).
Proof.
  intros Hok. unfold paint_stuff.
  destruct (find_spot _ _ _); auto with canvas_inv.
Qed.

#[local] Hint Resolve paint_stuff_ok : canvas_inv.

Lemma with_cursor_ok g x y : canvas_ok g -> canvas_ok (with_cursor g x y).
Proof. intros Hok. exact Hok. Qed.

#[local] Hint Resolve with_cursor_ok : canvas_inv.

Lemma move_brush_ok dx dy g : canvas_ok g -> canvas_ok (move_brush dx dy g).
Proof.
  intros Hok. unfold move_brush.
  destruct (_ || _); [|assumption].
  destruct (pen_down _); auto with canvas_inv.
Qed.

Lemma load_masterpiece_ok d g : canvas_ok g -> canvas_ok (load_masterpiece d g).
Proof.
  intros Hok. unfold load_masterpiece. destruct d as [f|]; [|assumption].
  destruct (parse_masterpiece f) as [[[fw fh] temp]|] eqn:E; [|assumption].
  destruct (parse_masterpiece_Some _ _ _ _ E) as (Hfw & Hfh & _).
  apply with_canvas_ok; [assumption|].
  now apply copy_overlap_lookup.
Qed.

(* ================================================================= *)
(** * The claims *)

(** ** Canvas *)

(** C6: for coordinates [(x, y)] outside [[0,width) x [0,height)],
    [find_spot] returns no cell and [paint_stuff] with the cursor there
    changes nothing at all, so no cell of the buffer is written; and every
    offset [find_spot] does return lies inside the buffer, so no read or
    write through it falls outside. *)
Theorem find_spot_out_of_range (g : Globals) (x y : Z) :
  ~ inside g x y ->
  find_spot g x y = None /\
  (cursor_x (g_app g) = x -> cursor_y (g_app g) = y -> paint_stuff g = g) /\
  (canvas_ok g ->
   forall x' y' p, find_spot g x' y' = Some p -> in_buffer (canvas (g_app g)) p).
Proof.
  intros Hout. split; [now apply find_spot_outside|]. split.
  - intros <- <-. unfold paint_stuff. now rewrite find_spot_outside.
  - intros Hok x' y' p Hp.
    pose proof (find_spot_Some _ _ _ _ Hp) as Hin.
    rewrite (find_spot_inside g x' y' Hok Hin) in Hp. injection Hp as <-.
    now apply offset_in_buffer.
Qed.

Lemma find_spot_out_of_range_witness :
  find_spot stray 7 9 = None /\ paint_stuff stray = stray /\
  in_buffer (canvas (g_app stray)) 5.
Proof.
  assert (Hout : ~ inside stray 7 9) by (unfold inside; simpl; lia).
  assert (Hok : canvas_ok stray).
  { concrete_canvas. }
  destruct (find_spot_out_of_range stray 7 9 Hout) as (H1 & H2 & H3).
  split; [exact H1|]. split; [exact (H2 eq_refl eq_refl)|].
  exact (H3 Hok 2 1 5 eq_refl).
Defined.

(** C8: [start_with_blank_canvas] sets every one of the [width * height]
    cells to a space in the current colour; no cell keeps its character or
    its colour, and nothing else in the state changes. *)
Theorem start_with_blank_canvas_clears (g : Globals) :
  canvas_ok g ->
  let fill := mkCell SPACE (current_color (g_app g)) in
  start_with_blank_canvas g
  = with_canvas g
      (replicate
         (Z.to_nat (canvas_width (g_app g) * canvas_height (g_app g))) fill) /\
  (forall x y, inside g x y ->
     cell_at (start_with_blank_canvas g) x y = Some fill).
Proof.
  intros (Hw & Hh & Hlen) fill.
  unfold MAX_CANVAS_WIDTH, MAX_CANVAS_HEIGHT in *.
  assert (Heq : start_with_blank_canvas g
    = with_canvas g
        (replicate
           (Z.to_nat (canvas_width (g_app g) * canvas_height (g_app g))) fill)).
  { unfold start_with_blank_canvas, for_upto. f_equal.
    rewrite (size_t_of_small (canvas_width _)),
      (size_t_of_small (canvas_height _)), size_t_of_small
      by (change (2 ^ 64) with 18446744073709551616; nia).
    rewrite (fill_loop fill _ [] (canvas (g_app g)) 0); [reflexivity..|].
    lia. }
  split; [exact Heq|].
  intros x y [Hx Hy]. rewrite Heq. unfold cell_at. simpl.
  apply lookup_replicate_2. nia.
Qed.

Lemma start_with_blank_canvas_clears_witness :
  canvas (g_app (start_with_blank_canvas corner_pen_down))
  = replicate 6 (mkCell SPACE 4).
Proof.
  assert (Hok : canvas_ok corner_pen_down).
  { concrete_canvas. }
  destruct (start_with_blank_canvas_clears corner_pen_down Hok) as [H _].
  rewrite H. reflexivity.
Defined.

(** C9: when the moved position, clamped to the canvas, is the position
    the cursor already has, [move_brush] changes nothing: the cursor stays
    and no cell is painted, whether the pen is down or not. *)
Theorem move_brush_against_edge (g : Globals) (dx dy : Z) :
  canvas_ok g ->
  in_int (cursor_x (g_app g) + dx) -> in_int (cursor_y (g_app g) + dy) ->
  clamp_move (cursor_x (g_app g)) dx (canvas_width (g_app g))
    = cursor_x (g_app g) ->
  clamp_move (cursor_y (g_app g)) dy (canvas_height (g_app g))
    = cursor_y (g_app g) ->
  move_brush dx dy g = g.
Proof.
  intros (Hw & Hh & _) Hx Hy Hcx Hcy.
  unfold MAX_CANVAS_WIDTH, MAX_CANVAS_HEIGHT in *.
  unfold move_brush, clamp_move in *.
  rewrite (int_of_small _ Hx), (int_of_small _ Hy).
  rewrite !int_of_small by int_range.
  set (cx := cursor_x (g_app g)) in *. set (cy := cursor_y (g_app g)) in *.
  set (w := canvas_width (g_app g)) in *. set (h := canvas_height (g_app g)) in *.
  assert (Ex : (if (if cx + dx <? 0 then 0 else cx + dx) >=? w then w - 1
                else if cx + dx <? 0 then 0 else cx + dx) = cx).
  { destruct (Z.ltb_spec (cx + dx) 0);
      [destruct (Z.geb_spec 0 w) | destruct (Z.geb_spec (cx + dx) w)]; lia. }
  assert (Ey : (if (if cy + dy <? 0 then 0 else cy + dy) >=? h then h - 1
                else if cy + dy <? 0 then 0 else cy + dy) = cy).
  { destruct (Z.ltb_spec (cy + dy) 0);
      [destruct (Z.geb_spec 0 h) | destruct (Z.geb_spec (cy + dy) h)]; lia. }
  rewrite Ex, Ey, !Z.eqb_refl. reflexivity.
Qed.

Lemma move_brush_against_edge_witness :
  pen_down (g_app corner_pen_down) = true /\
  move_brush (-1) 0 corner_pen_down = corner_pen_down /\
  move_brush 0 (-1) corner_pen_down = corner_pen_down.
Proof.
  assert (Hok : canvas_ok corner_pen_down).
  { concrete_canvas. }
  split; [reflexivity|]. split.
  - apply (move_brush_against_edge corner_pen_down (-1) 0 Hok);
      (simpl; int_range) || reflexivity.
  - apply (move_brush_against_edge corner_pen_down 0 (-1) Hok);
      (simpl; int_range) || reflexivity.
Defined.

(** ** Loading *)

(** C3: after a fully successful load of a [file_width x file_height] file,
    the canvas cells [(x, y)] with [x < min file_width canvas_width] and
    [y < min file_height canvas_height] hold the file's cell [(x, y)], every
    other canvas cell holds what it held before, nothing but the cells
    changes, and every access of the copy falls inside the temporary grid
    and inside the canvas. *)
Theorem load_overlays_top_left (f : FILE) (g : Globals)
    (file_width file_height : Z) (temp : list Cell) :
  canvas_ok g ->
  parse_masterpiece f = Some (file_width, file_height, temp) ->
  let g' := load_masterpiece (Some f) g in
  let copy_width := Z.min file_width (canvas_width (g_app g)) in
  let copy_height := Z.min file_height (canvas_height (g_app g)) in
  g' = with_canvas g (canvas (g_app g')) /\
  length (canvas (g_app g')) = length (canvas (g_app g)) /\
  (forall x y, inside g x y ->
     cell_at g' x y
     = if (x <? copy_width) && (y <? copy_height)
       then temp !! Z.to_nat (y * file_width + x)
       else cell_at g x y) /\
  (forall x y, 0 <= x < copy_width -> 0 <= y < copy_height ->
     in_buffer temp (y * file_width + x) /\
     in_buffer (canvas (g_app g)) (y * canvas_width (g_app g) + x)).
Proof.
  intros Hok Hparse g' copy_width copy_height.
  destruct (parse_masterpiece_Some _ _ _ _ Hparse) as (Hfw & Hfh & Hlen).
  destruct (copy_overlap_lookup g file_width temp Hok Hfw file_height Hfh)
    as [Hcl Hget].
  assert (Eg : g' = with_canvas g (copy_overlap g file_width file_height temp)).
  { unfold g', load_masterpiece. now rewrite Hparse. }
  rewrite Eg. cbn [with_canvas g_app canvas].
  split; [reflexivity|]. split; [exact Hcl|]. split.
  - intros x y Hin. unfold cell_at. cbn [with_canvas g_app canvas canvas_width].
    rewrite Hget by assumption. fold copy_width copy_height.
    destruct (Z.ltb_spec x copy_width); [|reflexivity].
    destruct (Z.ltb_spec y copy_height); [|reflexivity]. cbn [andb].
    symmetry. apply deref_in_buffer.
    destruct Hin. apply (temp_in_buffer temp file_width file_height);
      [assumption|unfold copy_width in *; lia|unfold copy_height in *; lia].
  - intros x y Hx Hy. unfold copy_width, copy_height in *. split.
    + apply (temp_in_buffer temp file_width file_height); [assumption|lia..].
    + apply offset_in_buffer; [assumption|]. unfold inside. lia.
Qed.

Lemma load_overlays_top_left_witness :
  let g' := load_masterpiece (Some painted_text) (blank 5 5) in
  cell_at g' 0 0 = Some (mkCell 35 1) /\
  cell_at g' 2 1 = Some (mkCell 42 3) /\
  cell_at g' 3 1 = Some (mkCell SPACE 7) /\
  cell_at g' 0 2 = Some (mkCell SPACE 7) /\
  length (canvas (g_app g')) = 25%nat.
Proof.
  assert (Hok : canvas_ok (blank 5 5)).
  { concrete_canvas. }
  assert (Hparse : parse_masterpiece painted_text
                   = Some (3, 2, canvas (g_app painted_example)))
    by (vm_compute; reflexivity).
  destruct (load_overlays_top_left painted_text (blank 5 5) 3 2 _ Hok Hparse)
    as (_ & Hlen & Hget & _).
  cbn zeta.
  rewrite (Hget 0 0), (Hget 2 1), (Hget 3 1), (Hget 0 2), Hlen
    by (unfold inside; simpl; lia).
  repeat split; reflexivity.
Defined.

(** ** Saving *)

(** C7: [save_masterpiece] writes the line ["<width> <height>"] and then,
    for each row [y] from [0] to [height - 1], one line of the tokens
    ["<color>,<code>"] of the cells [(0,y)] ... [(width-1,y)], a single space
    between two tokens and none after the last; the 3 x 2 example of the
    specification gives its three lines. *)
Theorem save_writes_header_and_rows :
  (forall (g : Globals) (d : disk),
     canvas_ok g ->
     save_masterpiece true g d = Some (serialize_spec g) /\
     (forall y, 0 <= y < canvas_height (g_app g) ->
        Z.of_nat (length (row_cells g y)) = canvas_width (g_app g) /\
        forall x, 0 <= x < canvas_width (g_app g) ->
          row_cells g y !! Z.to_nat x = cell_at g x y)) /\
  save_masterpiece true painted_example None = Some painted_text.
Proof.
  split; [|reflexivity].
  intros g d Hok. split; [now apply save_is_serialize|].
  intros y Hy. pose proof Hok as (Hw & _).
  split; [apply row_cells_length; lia|].
  intros x Hx. apply row_cells_lookup; [assumption|]. unfold inside. lia.
Qed.

Lemma save_writes_header_and_rows_witness :
  save_masterpiece true corner_pen_down None
  = Some (text ("3 2" ++ nl ++ "7,32 7,32 7,32" ++ nl ++ "7,32 7,32 7,32" ++ nl)%string).
Proof.
  assert (Hok : canvas_ok corner_pen_down).
  { concrete_canvas. }
  destruct save_writes_header_and_rows as [H _].
  destruct (H corner_pen_down None Hok) as [-> _]. reflexivity.
Defined.

(** C2: for a canvas whose cells have a colour index in [0,7] and a
    character code in [0,255], loading the text [save_masterpiece] wrote
    onto a canvas of the same width and height gives back the saved cells,
    cell for cell, and changes nothing else. *)
Theorem save_then_load_roundtrip (g g' : Globals) (d : disk) :
  canvas_ok g -> Forall cell_ok (canvas (g_app g)) ->
  canvas_ok g' ->
  canvas_width (g_app g') = canvas_width (g_app g) ->
  canvas_height (g_app g') = canvas_height (g_app g) ->
  load_masterpiece (save_masterpiece true g d) g'
  = with_canvas g' (canvas (g_app g)).
Proof.
  intros Hok Hcells Hok' Ew Eh.
  rewrite save_is_serialize by assumption.
  unfold load_masterpiece. rewrite parse_saved by assumption.
  rewrite <- Ew, <- Eh. rewrite copy_overlap_same_size; [reflexivity|assumption|].
  destruct Hok as (_ & _ & Hl), Hok' as (_ & _ & Hl'). nia.
Qed.

Lemma save_then_load_roundtrip_witness :
  canvas (g_app (load_masterpiece (save_masterpiece true painted_example None)
                                  corner_pen_down))
  = canvas (g_app painted_example).
Proof.
  assert (Hok : canvas_ok painted_example).
  { concrete_canvas. }
  assert (Hok' : canvas_ok corner_pen_down).
  { concrete_canvas. }
  assert (Hcells : Forall cell_ok (canvas (g_app painted_example))).
  { change (canvas (g_app painted_example))
      with [mkCell 35 1; mkCell 32 7; mkCell 32 7;
            mkCell 32 7; mkCell 32 7; mkCell 42 3].
    repeat (constructor; [unfold cell_ok; simpl; lia|]). constructor. }
  rewrite (save_then_load_roundtrip painted_example corner_pen_down None
             Hok Hcells Hok' eq_refl eq_refl).
  reflexivity.
Defined.

(** ** Loading: what is skipped *)

(** C10: a file with an accepted header whose rows each start with [width]
    well-formed tokens is loaded, whatever follows the tokens on a row's
    line (more tokens or anything else that stays on the line) and whatever
    follows the last declared row: the grid that is read holds the tokens'
    cells only, and the load gives the canvas that the same file without
    the extra content gives. *)
Theorem load_ignores_extra_content (f : FILE) (g : Globals)
    (file_width file_height : Z) (f1 tail : FILE)
    (rows : list file_row) :
  read_header f = Some (file_width, file_height, f1) ->
  skip_line f1 = body_text rows ++ tail ->
  Z.of_nat (length rows) = file_height ->
  Forall (row_ok file_width) rows ->
  parse_masterpiece f = Some (file_width, file_height, body_cells rows) /\
  load_masterpiece (Some f) g
  = load_masterpiece
      (Some (header_line file_width file_height
             ++ body_text (without_extras rows))) g.
Proof.
  intros Hhead Hbody Hlen Hrows.
  pose proof (parse_rows _ _ _ _ _ _ Hhead Hbody Hlen Hrows) as Hparse.
  split; [exact Hparse|].
  destruct (read_header_bounds _ _ _ _ Hhead) as (_ & Hw & Hh).
  unfold load_masterpiece. rewrite Hparse.
  rewrite (parse_rows _ file_width file_height
             (NEWLINE :: body_text (without_extras rows))
             (without_extras rows) []).
  - now rewrite without_extras_cells.
  - now apply read_header_line.
  - cbn. now rewrite app_nil_r.
  - unfold without_extras. now rewrite length_fmap.
  - now apply without_extras_ok.
Qed.

Lemma load_ignores_extra_content_witness :
  parse_masterpiece long_text = Some (1, 2, [mkCell 35 1; mkCell 32 7]) /\
  load_masterpiece (Some long_text) (blank 3 2)
  = load_masterpiece
      (Some (text ("1 2" ++ nl ++ "+1,035" ++ nl ++ "-4,300" ++ nl)%string))
      (blank 3 2).
Proof.
  assert (Hrows : Forall (row_ok 1) long_rows).
  { unfold long_rows, row_ok, trailing, token_ok.
    repeat constructor; cbn; try lia; try (unfold is_char; lia);
      try (intros H; repeat (apply elem_of_cons in H as [H|H]; [discriminate|]);
           now apply elem_of_nil in H). }
  exact (load_ignores_extra_content long_text (blank 3 2) 1 2
           (text (nl ++ "+1,035 2,36 junk" ++ nl ++ "-4,300" ++ nl ++ "5,37" ++ nl)%string)
           (text ("5,37" ++ nl)%string) long_rows
           eq_refl eq_refl eq_refl Hrows).
Defined.

(** ** Loading: the header *)

(** C4, as stated, fails.  The first line of [one_number_header_text] is
    ["3"], which does not parse as two integers, and [wide_header_text]
    declares a width of [2^32 + 2]; loading either changes the canvas.  In
    the first, the white space that [fscanf] skips before the second number
    includes the line end, so the height is taken from the second line; in
    the second, the width is judged by the [int] that [%d] stores, which
    is 2. *)
Lemma bad_header_can_load :
  ~ (forall (f : FILE) (g : Globals),
       declared_size f = None -> load_masterpiece (Some f) g = g) /\
  ~ (forall (f : FILE) (g : Globals) (w h : Z),
       declared_size f = Some (w, h) ->
       w > MAX_CANVAS_WIDTH \/ h > MAX_CANVAS_HEIGHT ->
       load_masterpiece (Some f) g = g).
Proof.
  split; intros Hclaim.
  - assert (Hsize : declared_size one_number_header_text = None) by reflexivity.
    pose proof (Hclaim one_number_header_text (blank 3 2) Hsize) as Hsame.
    assert (Hload :
      canvas (g_app (load_masterpiece (Some one_number_header_text) (blank 3 2)))
      = [mkCell 35 1; mkCell 36 2; mkCell 37 3;
         mkCell 38 4; mkCell 39 5; mkCell 40 6]) by reflexivity.
    rewrite Hsame in Hload. discriminate Hload.
  - assert (Hsize : declared_size wide_header_text = Some (4294967298, 1))
      by reflexivity.
    pose proof (Hclaim wide_header_text (blank 3 2) _ _ Hsize) as Hsame.
    specialize (Hsame ltac:(left; unfold MAX_CANVAS_WIDTH; lia)).
    assert (Hload :
      canvas (g_app (load_masterpiece (Some wide_header_text) (blank 3 2)))
      = [mkCell 35 1; mkCell 36 2; mkCell 32 7;
         mkCell 32 7; mkCell 32 7; mkCell 32 7]) by reflexivity.
    rewrite Hsame in Hload. discriminate Hload.
Qed.

(** C4, amended: for every input text, [load_masterpiece] returns with the
    state, and so the canvas, unchanged
    - when the file cannot be opened;
    - when, white space and line ends skipped, the text does not go on
      with a numeral (it is empty, or starts with something else);
    - when the text starts with a numeral and, white space and line ends
      skipped again, no numeral follows it;
    - when the text starts with two numerals and one of the values that
      [%d] stores for them is [<= 0] or exceeds 1000; for a numeral whose
      value fits in [int], that is the numeral's own value. *)
Theorem load_rejects_header_text (g : Globals) :
  load_masterpiece None g = g /\
  (forall f : FILE,
     number_ahead f = false -> load_masterpiece (Some f) g = g) /\
  (forall ws sw r : list Z,
     Forall (fun c => isspace c = true) ws ->
     is_numeral sw = true -> no_digit_ahead r ->
     number_ahead r = false ->
     load_masterpiece (Some (ws ++ sw ++ r)) g = g) /\
  (forall ws1 sw ws2 sh r : list Z,
     Forall (fun c => isspace c = true) ws1 ->
     Forall (fun c => isspace c = true) ws2 ->
     is_numeral sw = true -> is_numeral sh = true ->
     no_digit_ahead (ws2 ++ sh) -> no_digit_ahead r ->
     store_d (numeral_value sw) <= 0 \/ store_d (numeral_value sh) <= 0 \/
     store_d (numeral_value sw) > MAX_CANVAS_WIDTH \/
     store_d (numeral_value sh) > MAX_CANVAS_HEIGHT ->
     load_masterpiece (Some (ws1 ++ sw ++ ws2 ++ sh ++ r)) g = g) /\
  (forall ws1 sw ws2 sh r : list Z,
     Forall (fun c => isspace c = true) ws1 ->
     Forall (fun c => isspace c = true) ws2 ->
     is_numeral sw = true -> is_numeral sh = true ->
     no_digit_ahead (ws2 ++ sh) -> no_digit_ahead r ->
     in_int (numeral_value sw) -> in_int (numeral_value sh) ->
     numeral_value sw <= 0 \/ numeral_value sh <= 0 \/
     numeral_value sw > MAX_CANVAS_WIDTH \/
     numeral_value sh > MAX_CANVAS_HEIGHT ->
     load_masterpiece (Some (ws1 ++ sw ++ ws2 ++ sh ++ r)) g = g).
Proof.
  assert (Hstored : forall ws1 sw ws2 sh r : list Z,
     Forall (fun c => isspace c = true) ws1 ->
     Forall (fun c => isspace c = true) ws2 ->
     is_numeral sw = true -> is_numeral sh = true ->
     no_digit_ahead (ws2 ++ sh) -> no_digit_ahead r ->
     store_d (numeral_value sw) <= 0 \/ store_d (numeral_value sh) <= 0 \/
     store_d (numeral_value sw) > MAX_CANVAS_WIDTH \/
     store_d (numeral_value sh) > MAX_CANVAS_HEIGHT ->
     load_masterpiece (Some (ws1 ++ sw ++ ws2 ++ sh ++ r)) g = g).
  { intros ws1 sw ws2 sh r Hws1 Hws2 Hsw Hsh Hsep Hr Hbad.
    apply load_without_header.
    eapply read_header_guard;
      [now apply fscanf_header_layout|right; exact Hbad]. }
  split; [reflexivity|]. split; [|split; [|split]].
  - intros f Hnone. apply load_without_header, read_header_not_two.
    now apply fscanf_no_first_number.
  - intros ws sw r Hws Hsw Hr Hnone.
    apply load_without_header, read_header_not_two.
    now apply fscanf_no_second_number.
  - exact Hstored.
  - intros ws1 sw ws2 sh r Hws1 Hws2 Hsw Hsh Hsep Hr Hiw Hih Hbad.
    apply Hstored; try assumption. now rewrite !store_d_small.
Qed.

Lemma load_rejects_header_text_witness :
  load_masterpiece (Some []) painted_example = painted_example /\
  load_masterpiece (Some (text ("x 1" ++ nl ++ "1,35" ++ nl)%string))
                   painted_example = painted_example /\
  load_masterpiece (Some (text ("3 x" ++ nl ++ "1,35" ++ nl)%string))
                   painted_example = painted_example /\
  load_masterpiece (Some (text "1001" ++ text " " ++ text "1"
                          ++ text (nl ++ "1,35" ++ nl)%string))
                   painted_example = painted_example /\
  load_masterpiece (Some (text "1" ++ text " " ++ text "0" ++ text nl))
                   painted_example = painted_example /\
  load_masterpiece (Some (text "-3" ++ text " " ++ text "2" ++ text nl))
                   painted_example = painted_example.
Proof.
  destruct (load_rejects_header_text painted_example)
    as (_ & Hfirst & Hsecond & _ & Hrange).
  assert (Hsp : Forall (fun c => isspace c = true) (text " "))
    by (repeat constructor).
  split; [|split; [|split; [|split; [|split]]]].
  - apply Hfirst. reflexivity.
  - apply Hfirst. reflexivity.
  - apply (Hsecond [] (text "3") (text (" x" ++ nl ++ "1,35" ++ nl)%string));
      (constructor || reflexivity).
  - refine (Hrange [] (text "1001") (text " ") (text "1")
                   (text (nl ++ "1,35" ++ nl)%string) _ Hsp
                   eq_refl eq_refl eq_refl eq_refl _ _ _).
    + constructor.
    + vm_compute. split; discriminate.
    + vm_compute. split; discriminate.
    + right. right. left. vm_compute. reflexivity.
  - refine (Hrange [] (text "1") (text " ") (text "0") (text nl) _ Hsp
                   eq_refl eq_refl eq_refl eq_refl _ _ _).
    + constructor.
    + vm_compute. split; discriminate.
    + vm_compute. split; discriminate.
    + right. left. vm_compute. discriminate.
  - refine (Hrange [] (text "-3") (text " ") (text "2") (text nl) _ Hsp
                   eq_refl eq_refl eq_refl eq_refl _ _ _).
    + constructor.
    + vm_compute. split; discriminate.
    + vm_compute. split; discriminate.
    + left. vm_compute. discriminate.
Defined.

(** ** Loading: tokens *)




(** ** Loading: rows that are short *)

(** C1, as stated, fails on both counts.  The 2 x 2 file [short_row_text]
    has an accepted header and a first row of one token only, and the
    2 x 1 file [junk_text] has a row that contains a token that cannot be
    parsed; loading either changes the canvas.  In the first, white space
    before a token includes line ends, so the row is completed with the
    first token of the next line; in the second, the rest of the line after
    the row's two tokens is skipped unread. *)
Lemma short_or_malformed_row_can_load :
  ~ (forall (f : FILE) (g : Globals) (w h : Z) (f1 : FILE) (y : Z),
       read_header f = Some (w, h, f1) ->
       0 <= y < h ->
       Z.of_nat (length (filter (fun t => well_formed_token t = true)
                                (line_tokens (row_of_file f y)))) < w ->
       load_masterpiece (Some f) g = g) /\
  ~ (forall (f : FILE) (g : Globals) (w h : Z) (f1 : FILE) (y : Z),
       read_header f = Some (w, h, f1) ->
       0 <= y < h ->
       (exists t, t ∈ line_tokens (row_of_file f y) /\
                  well_formed_token t = false) ->
       load_masterpiece (Some f) g = g).
Proof.
  split; intros Hclaim.
  - assert (Hhead : read_header short_row_text
                    = Some (2, 2, skipn 3 short_row_text)) by reflexivity.
    assert (Hrow : filter (fun t => well_formed_token t = true)
                     (line_tokens (row_of_file short_row_text 0))
                   = [text "1,35"]) by reflexivity.
    pose proof (Hclaim short_row_text (blank 2 2) 2 2 _ 0 Hhead ltac:(lia))
      as Hsame.
    rewrite Hrow in Hsame. specialize (Hsame ltac:(cbn; lia)).
    assert (Hload :
      canvas (g_app (load_masterpiece (Some short_row_text) (blank 2 2)))
      = [mkCell 35 1; mkCell 36 2; mkCell 38 4; mkCell 39 5]) by reflexivity.
    rewrite Hsame in Hload. discriminate Hload.
  - assert (Hhead : read_header junk_text = Some (2, 1, skipn 3 junk_text))
      by reflexivity.
    assert (Hrow : line_tokens (row_of_file junk_text 0)
                   = [text "1,35"; text "2,36"; text "junk"]) by reflexivity.
    assert (Hbad : exists t, t ∈ line_tokens (row_of_file junk_text 0) /\
                             well_formed_token t = false).
    { exists (text "junk"). rewrite Hrow. split; [|reflexivity].
      do 2 apply list_elem_of_further. apply list_elem_of_here. }
    pose proof (Hclaim junk_text (blank 2 2) 2 1 _ 0 Hhead ltac:(lia) Hbad)
      as Hsame.
    assert (Hload :
      canvas (g_app (load_masterpiece (Some junk_text) (blank 2 2)))
      = [mkCell 35 1; mkCell 36 2; mkCell 32 7; mkCell 32 7]) by reflexivity.
    rewrite Hsame in Hload. discriminate Hload.
Qed.

(** C1, amended: for a file with an accepted header, when after some
    complete rows a row has fewer well-formed tokens than the declared
    width and no token can be read from what follows them (the input ends,
    or what comes next is not a well-formed token), the parse stage fails,
    the load is aborted and the state, and so every cell of the canvas, is
    left as it was. *)
Theorem load_aborts_on_missing_token (f : FILE) (g : Globals)
    (file_width file_height : Z) (f1 bad : FILE)
    (rows : list file_row) (toks : list file_token) :
  read_header f = Some (file_width, file_height, f1) ->
  skip_line f1 = body_text rows ++ partial_row toks ++ bad ->
  Z.of_nat (length rows) < file_height ->
  Forall (row_ok file_width) rows ->
  Z.of_nat (length toks) < file_width ->
  Forall token_ok toks ->
  (toks <> [] -> no_digit_ahead bad) ->
  Forall is_char bad ->
  token_missing bad ->
  parse_masterpiece f = None /\ load_masterpiece (Some f) g = g.
Proof.
  intros Hhead Hbody Hrows Hok Hlen Htoks Hd Hchars Hbad.
  assert (He : no_eof_ahead bad).
  { destruct Hchars as [|c bad' Hc _]; [exact I|].
    unfold no_eof_ahead, is_char, EOF in *. lia. }
  assert (Hparse : parse_masterpiece f = None)
    by (eapply parse_short; eassumption).
  split; [exact Hparse|]. unfold load_masterpiece. now rewrite Hparse.
Qed.

Lemma load_aborts_on_missing_token_witness :
  load_masterpiece (Some truncated_text) painted_example = painted_example /\
  load_masterpiece (Some (text ("2 1" ++ nl ++ "1,35 x,36" ++ nl)%string))
                   painted_example = painted_example.
Proof.
  assert (Hchars : forall s, Forall is_char (text s)).
  { intros s. unfold text. apply Forall_fmap, Forall_forall. intros a _.
    unfold is_char. cbn. pose proof (N_ascii_bounded a). lia. }
  split.
  - refine (proj2 (load_aborts_on_missing_token truncated_text painted_example
                     2 2 (skipn 3 truncated_text) (text nl)
                     [([(text "1", text "35"); (text "2", text "36")], [])]
                     [(text "3", text "37")]
                     eq_refl eq_refl _ _ _ _ _ (Hchars nl) _)).
    + cbn. lia.
    + repeat constructor. apply not_elem_of_nil.
    + cbn. lia.
    + repeat constructor.
    + intros _. reflexivity.
    + unfold token_missing. cbn. discriminate.
  - refine (proj2 (load_aborts_on_missing_token
                     (text ("2 1" ++ nl ++ "1,35 x,36" ++ nl)%string)
                     painted_example
                     2 1 (text nl ++ text ("1,35 x,36" ++ nl)%string)
                     (text (" x,36" ++ nl)%string)
                     [] [(text "1", text "35")]
                     eq_refl eq_refl _ _ _ _ _ (Hchars _) _)).
    + cbn. lia.
    + constructor.
    + cbn. lia.
    + repeat constructor.
    + intros _. reflexivity.
    + unfold token_missing. cbn. discriminate.
Defined.

(* ================================================================= *)
(** * Further properties of the program *)

(** ** Cells and the cursor *)

Lemma cell_at_with_canvas g buf x y :
  cell_at (with_canvas g buf) x y = buf !! Z.to_nat (y * canvas_width (g_app g) + x).
Proof. reflexivity. Qed.

Lemma paint_stuff_inside g :
  canvas_ok g -> inside g (cursor_x (g_app g)) (cursor_y (g_app g)) ->
  paint_stuff g
  = with_canvas g
      (store (canvas (g_app g))
             (cursor_y (g_app g) * canvas_width (g_app g) + cursor_x (g_app g))
             (mkCell (current_glyph g) (current_color (g_app g)))).
Proof.
  intros Hok Hin. unfold paint_stuff. now rewrite find_spot_inside.
Qed.

(** Writing one cell: that cell is replaced, the others stay. *)
Lemma cell_at_store g x0 y0 c x y :
  canvas_ok g -> inside g x0 y0 -> inside g x y ->
  cell_at (with_canvas g (store (canvas (g_app g))
                                (y0 * canvas_width (g_app g) + x0) c)) x y
  = if decide (x = x0 /\ y = y0) then Some c else cell_at g x y.
Proof.
  intros Hok Hin0 Hin. rewrite cell_at_with_canvas.
  rewrite lookup_store by now apply offset_in_buffer.
  destruct Hin0 as [Hx0 Hy0], Hin as [Hx Hy].
  destruct (decide (Z.to_nat (y0 * canvas_width (g_app g) + x0)
                    = Z.to_nat (y * canvas_width (g_app g) + x))) as [E|Hne].
  - apply offset_inj in E as [-> ->]; try lia.
    destruct (decide _) as [|Hc]; [reflexivity|]. exfalso. apply Hc. lia.
  - destruct (decide _) as [[-> ->]|]; [|reflexivity]. now contradiction Hne.
Qed.

(** X2: with the cursor inside the grid, [paint_stuff] puts the current
    brush glyph and colour in the cursor's cell, leaves every other cell
    as it was and changes nothing but the cells. *)
Theorem paint_stuff_paints_cursor_cell (g : Globals) :
  canvas_ok g -> inside g (cursor_x (g_app g)) (cursor_y (g_app g)) ->
  let g' := paint_stuff g in
  g' = with_canvas g (canvas (g_app g')) /\
  length (canvas (g_app g')) = length (canvas (g_app g)) /\
  forall x y, inside g x y ->
    cell_at g' x y
    = if decide (x = cursor_x (g_app g) /\ y = cursor_y (g_app g))
      then Some (mkCell (current_glyph g) (current_color (g_app g)))
      else cell_at g x y.
Proof.
  intros Hok Hin g'. unfold g'. rewrite paint_stuff_inside by assumption.
  split; [reflexivity|]. split; [apply length_store|].
  intros x y Hxy. now apply cell_at_store.
Qed.

Lemma paint_stuff_paints_cursor_cell_witness :
  cell_at (paint_stuff corner_pen_down) 0 0 = Some (mkCell 42 4) /\
  cell_at (paint_stuff corner_pen_down) 1 0 = Some (mkCell SPACE 7).
Proof.
  assert (Hok : canvas_ok corner_pen_down) by concrete_canvas.
  assert (Hin : inside corner_pen_down 0 0) by (unfold inside; simpl; lia).
  destruct (paint_stuff_paints_cursor_cell corner_pen_down Hok Hin)
    as (_ & _ & Hget).
  rewrite (Hget 0 0), (Hget 1 0) by (unfold inside; simpl; lia).
  split; reflexivity.
Defined.

(** ** Moving *)

Lemma move_brush_clamps g dx dy :
  canvas_ok g ->
  in_int (cursor_x (g_app g) + dx) -> in_int (cursor_y (g_app g) + dy) ->
  let nx := clamp_move (cursor_x (g_app g)) dx (canvas_width (g_app g)) in
  let ny := clamp_move (cursor_y (g_app g)) dy (canvas_height (g_app g)) in
  move_brush dx dy g
  = if decide (nx = cursor_x (g_app g) /\ ny = cursor_y (g_app g)) then g
    else if pen_down (g_app g) then paint_stuff (with_cursor g nx ny)
    else with_cursor g nx ny.
Proof.
  intros (Hw & Hh & _) Hx Hy nx ny. unfold_limits.
  unfold move_brush, nx, ny, clamp_move.
  rewrite (int_of_small _ Hx), (int_of_small _ Hy).
  rewrite !int_of_small by int_range.
  set (cx := cursor_x (g_app g)) in *. set (cy := cursor_y (g_app g)) in *.
  set (w := canvas_width (g_app g)) in *. set (h := canvas_height (g_app g)) in *.
  assert (Ex : (if (if cx + dx <? 0 then 0 else cx + dx) >=? w then w - 1
                else if cx + dx <? 0 then 0 else cx + dx)
               = Z.min (w - 1) (Z.max 0 (cx + dx))).
  { destruct (Z.ltb_spec (cx + dx) 0);
      [destruct (Z.geb_spec 0 w) | destruct (Z.geb_spec (cx + dx) w)]; lia. }
  assert (Ey : (if (if cy + dy <? 0 then 0 else cy + dy) >=? h then h - 1
                else if cy + dy <? 0 then 0 else cy + dy)
               = Z.min (h - 1) (Z.max 0 (cy + dy))).
  { destruct (Z.ltb_spec (cy + dy) 0);
      [destruct (Z.geb_spec 0 h) | destruct (Z.geb_spec (cy + dy) h)]; lia. }
  rewrite Ex, Ey.
  destruct (decide _) as [[-> ->]|Hne].
  - now rewrite !Z.eqb_refl.
  - destruct (Z.eqb_spec (Z.min (w - 1) (Z.max 0 (cx + dx))) cx);
      destruct (Z.eqb_spec (Z.min (h - 1) (Z.max 0 (cy + dy))) cy);
      cbn [negb orb]; try reflexivity.
    exfalso. apply Hne. split; assumption.
Qed.

Lemma clamp_move_inside pos delta bound :
  0 < bound -> 0 <= clamp_move pos delta bound < bound.
Proof. unfold clamp_move. lia. Qed.

(** X3: [move_brush] puts the cursor at the moved position clamped to the
    canvas, which is inside the grid; with the pen down and the position
    changed it paints the cell it arrives at and no other, and otherwise
    no cell changes. *)
Theorem move_brush_moves_and_paints (g : Globals) (dx dy : Z) :
  canvas_ok g ->
  in_int (cursor_x (g_app g) + dx) -> in_int (cursor_y (g_app g) + dy) ->
  let nx := clamp_move (cursor_x (g_app g)) dx (canvas_width (g_app g)) in
  let ny := clamp_move (cursor_y (g_app g)) dy (canvas_height (g_app g)) in
  let g' := move_brush dx dy g in
  cursor_x (g_app g') = nx /\ cursor_y (g_app g') = ny /\ inside g' nx ny /\
  forall x y, inside g x y ->
    cell_at g' x y
    = if decide (pen_down (g_app g) = true /\
                 ~ (nx = cursor_x (g_app g) /\ ny = cursor_y (g_app g)) /\
                 x = nx /\ y = ny)
      then Some (mkCell (current_glyph g) (current_color (g_app g)))
      else cell_at g x y.
Proof.
  intros Hok Hx Hy nx ny g'. pose proof Hok as (Hw & Hh & Hlen).
  pose proof (clamp_move_inside (cursor_x (g_app g)) dx _ (proj1 Hw)) as Hnx.
  pose proof (clamp_move_inside (cursor_y (g_app g)) dy _ (proj1 Hh)) as Hny.
  fold nx in Hnx. fold ny in Hny.
  unfold g'. rewrite move_brush_clamps by assumption. fold nx ny.
  destruct (decide (nx = cursor_x (g_app g) /\ ny = cursor_y (g_app g)))
    as [[Ex Ey]|Hne].
  - split; [congruence|]. split; [congruence|]. split; [split; assumption|].
    intros x y _. destruct (decide _) as [(_ & Hc & _)|]; [|reflexivity].
    exfalso. apply Hc. now split.
  - destruct (pen_down (g_app g)) eqn:Hpen.
    + assert (Hok1 : canvas_ok (with_cursor g nx ny)) by exact Hok.
      assert (Hin1 : inside (with_cursor g nx ny) nx ny) by (split; assumption).
      rewrite paint_stuff_inside by assumption.
      split; [reflexivity|]. split; [reflexivity|]. split; [split; assumption|].
      intros x y Hxy.
      pose proof (cell_at_store (with_cursor g nx ny) nx ny
                    (mkCell (current_glyph g) (current_color (g_app g)))
                    x y Hok1 Hin1 Hxy) as Hcell.
      cbn [with_cursor g_app cursor_x cursor_y canvas canvas_width] in *.
      etransitivity; [exact Hcell|].
      destruct (decide (x = nx /\ y = ny)) as [[-> ->]|Hno].
      * destruct (decide _) as [|Hc]; [reflexivity|]. exfalso. apply Hc. tauto.
      * destruct (decide _) as [(_ & _ & ? & ?)|]; [|reflexivity].
        exfalso. apply Hno. now split.
    + split; [reflexivity|]. split; [reflexivity|]. split; [split; assumption|].
      intros x y _. destruct (decide _) as [(? & _)|]; [discriminate|reflexivity].
Qed.

Lemma move_brush_moves_and_paints_witness :
  let g' := move_brush 1 0 corner_pen_down in
  cursor_x (g_app g') = 1 /\ cursor_y (g_app g') = 0 /\
  cell_at g' 1 0 = Some (mkCell 42 4) /\
  cell_at g' 0 0 = Some (mkCell SPACE 7).
Proof.
  assert (Hok : canvas_ok corner_pen_down) by concrete_canvas.
  destruct (move_brush_moves_and_paints corner_pen_down 1 0 Hok
              ltac:(simpl; int_range) ltac:(simpl; int_range))
    as (Hx & Hy & _ & Hget).
  cbn zeta. rewrite Hx, Hy, (Hget 1 0), (Hget 0 0) by (unfold inside; simpl; lia).
  repeat split; reflexivity.
Defined.

(** ** The state invariant *)

Lemma store_ok buf p c :
  Forall cell_ok buf -> cell_ok c -> Forall cell_ok (store buf p c).
Proof.
  intros Hbuf Hc. unfold store. destruct (p <? 0); [assumption|].
  now apply Forall_insert.
Qed.

Lemma read_cell_ok fw y x r :
  Forall cell_ok (temp_canvas r) -> Forall cell_ok (temp_canvas (read_cell fw y x r)).
Proof.
  intros Hr. unfold read_cell.
  destruct (fscanf_d_comma_d _ _ _) as [[[n c] a] f1].
  destruct (negb (n =? 2)); [assumption|].
  rewrite coerce_decode. destruct (sneak_peek_at_file f1). cbn [temp_canvas].
  apply store_ok; [assumption|apply decode_ok].
Qed.

Lemma read_canvas_data_ok fw fh r :
  Forall cell_ok (temp_canvas r) ->
  Forall cell_ok (temp_canvas (read_canvas_data fw fh r)).
Proof.
  unfold read_canvas_data, for_upto.
  apply (for_loop_invariant (fun r => Forall cell_ok (temp_canvas r))).
  intros y s Hs. unfold read_row, for_upto. cbn [temp_canvas].
  revert Hs. apply (for_loop_invariant (fun r => Forall cell_ok (temp_canvas r))).
  intros x s' Hs'. now apply read_cell_ok.
Qed.

(** Whatever the file holds, the cells of a parsed grid are cells of the
    file format. *)
Lemma parse_masterpiece_ok f fw fh temp :
  parse_masterpiece f = Some (fw, fh, temp) -> Forall cell_ok temp.
Proof.
  unfold parse_masterpiece.
  destruct (read_header f) as [[[w h] f1]|]; [|discriminate].
  destruct (negb _); [discriminate|]. intros [= <- <- <-].
  apply read_canvas_data_ok. cbn [temp_canvas].
  apply Forall_replicate. unfold cell_ok, garbage. cbn. lia.
Qed.

Lemma copy_overlap_ok g fw fh temp :
  Forall cell_ok (canvas (g_app g)) -> Forall cell_ok temp ->
  Forall cell_ok (copy_overlap g fw fh temp).
Proof.
  intros Hg Htemp. unfold copy_overlap, for_upto at 1.
  revert Hg. apply (for_loop_invariant (Forall cell_ok)).
  intros y buf Hbuf. unfold for_upto.
  revert Hbuf. apply (for_loop_invariant (Forall cell_ok)).
  intros x buf' Hbuf'. unfold copy_cell.
  destruct (find_spot g x y); [|assumption].
  apply store_ok; [assumption|now apply deref_ok].
Qed.

Lemma load_masterpiece_cells_ok d g :
  Forall cell_ok (canvas (g_app g)) ->
  Forall cell_ok (canvas (g_app (load_masterpiece d g))).
Proof.
  intros Hg. unfold load_masterpiece. destruct d as [f|]; [|assumption].
  destruct (parse_masterpiece f) as [[[fw fh] temp]|] eqn:E; [|assumption].
  cbn [with_canvas g_app canvas].
  apply copy_overlap_ok; [assumption|]. now apply (parse_masterpiece_ok f fw fh).
Qed.

Lemma blank_canvas_cells g :
  canvas_ok g ->
  canvas (g_app (start_with_blank_canvas g))
  = replicate (Z.to_nat (canvas_width (g_app g) * canvas_height (g_app g)))
              (mkCell SPACE (current_color (g_app g))).
Proof.
  intros (Hw & Hh & Hlen). unfold_limits.
  unfold start_with_blank_canvas, for_upto. cbn [with_canvas g_app canvas].
  rewrite (size_t_of_small (canvas_width _)),
    (size_t_of_small (canvas_height _)), size_t_of_small
    by (change (2 ^ 64) with 18446744073709551616; nia).
  pose proof (fill_loop (mkCell SPACE (current_color (g_app g)))
                (Z.to_nat (canvas_width (g_app g) * canvas_height (g_app g)))
                [] (canvas (g_app g)) 0 eq_refl ltac:(lia)) as Hfill.
  exact Hfill.
Qed.

Lemma current_glyph_range g : 0 <= current_glyph g <= 255.
Proof.
  unfold current_glyph, uchar_of.
  pose proof (Z.mod_pos_bound
                (nth (Z.to_nat (brush_index (g_app g))) (brush_chars g) 0) 256
                ltac:(lia)). lia.
Qed.

Lemma paint_stuff_app_ok g : app_ok g -> app_ok (paint_stuff g).
Proof.
  intros (Hok & Hin & Hcol & Hidx & Hbr & Hcells).
  rewrite paint_stuff_inside by assumption.
  repeat split; try apply Hok; try apply Hin; try apply Hcol; try apply Hidx;
    try exact Hbr.
  - cbn [with_canvas g_app canvas canvas_width canvas_height].
    rewrite length_store. apply Hok.
  - cbn [with_canvas g_app canvas]. apply store_ok; [assumption|].
    pose proof (current_glyph_range g). unfold cell_ok. cbn [color ch]. lia.
Qed.

Lemma inside_in_int g dx dy :
  canvas_ok g -> inside g (cursor_x (g_app g)) (cursor_y (g_app g)) ->
  -1 <= dx <= 1 -> -1 <= dy <= 1 ->
  in_int (cursor_x (g_app g) + dx) /\ in_int (cursor_y (g_app g) + dy).
Proof.
  intros (Hw & Hh & _) [Hx Hy] Hdx Hdy. unfold_limits. split; int_range.
Qed.

Lemma move_brush_app_ok g dx dy :
  -1 <= dx <= 1 -> -1 <= dy <= 1 -> app_ok g -> app_ok (move_brush dx dy g).
Proof.
  intros Hdx Hdy Happ. pose proof Happ as (Hok & Hin & Hcol & Hidx & Hbr & Hcells).
  destruct (inside_in_int g dx dy Hok Hin Hdx Hdy) as [Hix Hiy].
  rewrite move_brush_clamps by assumption.
  destruct (decide _); [assumption|].
  pose proof Hok as (Hw & Hh & _).
  assert (Hmoved : app_ok (with_cursor g
            (clamp_move (cursor_x (g_app g)) dx (canvas_width (g_app g)))
            (clamp_move (cursor_y (g_app g)) dy (canvas_height (g_app g))))).
  { repeat split; try apply Hok; try apply Hcol; try apply Hidx;
      try exact Hbr; try exact Hcells;
      cbn [with_cursor g_app cursor_x cursor_y canvas_width canvas_height];
      apply clamp_move_inside; lia. }
  destruct (pen_down (g_app g)); [now apply paint_stuff_app_ok|assumption].
Qed.

Lemma start_with_blank_canvas_app_ok g :
  app_ok g -> app_ok (start_with_blank_canvas g).
Proof.
  intros (Hok & Hin & Hcol & Hidx & Hbr & Hcells).
  repeat split; try apply (start_with_blank_canvas_ok g Hok);
    try apply Hin; try apply Hcol; try apply Hidx; try exact Hbr.
  rewrite blank_canvas_cells by assumption.
  apply Forall_replicate. unfold cell_ok, SPACE. cbn [color ch]. lia.
Qed.

Lemma load_masterpiece_app_ok d g : app_ok g -> app_ok (load_masterpiece d g).
Proof.
  intros Happ. pose proof Happ as (Hok & Hin & Hcol & Hidx & Hbr & Hcells).
  pose proof (load_masterpiece_ok d g Hok) as Hok'.
  pose proof (load_masterpiece_cells_ok d g Hcells) as Hcells'.
  unfold load_masterpiece in *. destruct d as [f|]; [|exact Happ].
  destruct (parse_masterpiece f) as [[[fw fh] temp]|]; [|exact Happ].
  split; [exact Hok'|]. split; [exact Hin|]. split; [exact Hcol|].
  split; [exact Hidx|]. split; [exact Hbr|exact Hcells'].
Qed.

Lemma next_color c :
  0 <= c <= 7 -> short_of (Z.rem (int_of (c + 1)) COLOR_COUNT) = (c + 1) mod 8.
Proof.
  intros Hc. unfold COLOR_COUNT. rewrite int_of_small by int_range.
  rewrite Z.rem_mod_nonneg by lia.
  pose proof (Z.mod_pos_bound (c + 1) 8 ltac:(lia)).
  apply short_of_small. lia.
Qed.

Lemma next_brush i :
  0 <= i < BRUSH_COUNT ->
  int_of (size_t_of (int_of (i + 1)) mod BRUSH_COUNT) = (i + 1) mod 10.
Proof.
  unfold BRUSH_COUNT. intros Hi. rewrite (int_of_small (i + 1)) by int_range.
  rewrite size_t_of_small by (change (2 ^ 64) with 18446744073709551616; lia).
  pose proof (Z.mod_pos_bound (i + 1) 10 ltac:(lia)).
  apply int_of_small. int_range.
Qed.

Lemma key_in_true key labels : key_in key labels = true -> In key labels.
Proof.
  unfold key_in. intros H. apply existsb_exists in H as (k & Hk & E).
  apply Z.eqb_eq in E. now subst.
Qed.

Lemma digit_key_color key :
  key_in key [48; 49; 50; 51; 52; 53; 54; 55] = true ->
  short_of (int_of (key - 48)) = key - 48 /\ 0 <= key - 48 <= 7.
Proof.
  intros H%key_in_true. cbn in H.
  assert (48 <= key <= 55) by (repeat (destruct H as [<-|H]; [lia|]); contradiction).
  rewrite int_of_small by int_range. split; [apply short_of_small|]; lia.
Qed.

Lemma paint_stuff_dims g :
  canvas_width (g_app (paint_stuff g)) = canvas_width (g_app g) /\
  canvas_height (g_app (paint_stuff g)) = canvas_height (g_app g).
Proof. unfold paint_stuff. destruct (find_spot _ _ _); split; reflexivity. Qed.

Lemma move_brush_dims dx dy g :
  canvas_width (g_app (move_brush dx dy g)) = canvas_width (g_app g) /\
  canvas_height (g_app (move_brush dx dy g)) = canvas_height (g_app g).
Proof.
  unfold move_brush. destruct (_ || _); [|split; reflexivity].
  destruct (pen_down _); [|split; reflexivity].
  match goal with |- context [paint_stuff ?g1] => exact (paint_stuff_dims g1) end.
Qed.

Lemma load_masterpiece_dims d g :
  canvas_width (g_app (load_masterpiece d g)) = canvas_width (g_app g) /\
  canvas_height (g_app (load_masterpiece d g)) = canvas_height (g_app g).
Proof.
  unfold load_masterpiece. destruct d as [f|]; [|split; reflexivity].
  destruct (parse_masterpiece f) as [[[? ?] ?]|]; split; reflexivity.
Qed.

(** A key changes neither the size of the canvas nor, unless it is the save
    key, the save file. *)
Lemma input_stuff_frame writable key g d :
  let s' := input_stuff writable key (g, d) in
  canvas_width (g_app (fst s')) = canvas_width (g_app g) /\
  canvas_height (g_app (fst s')) = canvas_height (g_app g) /\
  (key <> 115 -> key <> 83 -> snd s' = d).
Proof.
  cbn zeta. unfold input_stuff.
  repeat match goal with
  | |- context [if ?b then _ else _] => destruct b eqn:?
  end; cbn [fst snd];
    (split; [|split]);
    try apply move_brush_dims; try apply paint_stuff_dims;
    try apply load_masterpiece_dims; try reflexivity.
  intros H1 H2.
  match goal with E : key_in key [115; 83] = true |- _ =>
    apply key_in_true in E; cbn in E; intuition congruence end.
Qed.

Lemma with_pen_down_app_ok g b : app_ok g -> app_ok (with_pen_down g b).
Proof. intros H. exact H. Qed.

Lemma with_running_app_ok g b : app_ok g -> app_ok (with_running g b).
Proof. intros H. exact H. Qed.

Lemma with_color_app_ok g c : 0 <= c <= 7 -> app_ok g -> app_ok (with_color g c).
Proof.
  intros Hc (Hok & Hin & _ & Hidx & Hbr & Hcells).
  split; [exact Hok|]. split; [exact Hin|]. split; [exact Hc|].
  split; [exact Hidx|]. split; [exact Hbr|exact Hcells].
Qed.

Lemma with_brush_app_ok g i chars :
  0 <= i < BRUSH_COUNT ->
  chars = original_brush_chars \/ (chars = eraser_brush_chars /\ i = 0) ->
  app_ok g -> app_ok (with_brush g i chars).
Proof.
  intros Hi Hchars (Hok & Hin & Hcol & _ & _ & Hcells).
  split; [exact Hok|]. split; [exact Hin|]. split; [exact Hcol|].
  split; [exact Hi|]. split; [exact Hchars|exact Hcells].
Qed.

Lemma input_stuff_app_ok writable key g d :
  app_ok g -> app_ok (fst (input_stuff writable key (g, d))).
Proof.
  intros Happ. pose proof Happ as (_ & _ & Hcol & Hidx & _ & _).
  unfold input_stuff.
  repeat match goal with
  | |- context [if ?b then _ else _] => destruct b eqn:?
  end; cbn [fst];
    try (apply move_brush_app_ok; [lia|lia|exact Happ]);
    try (now apply paint_stuff_app_ok);
    try (now apply with_pen_down_app_ok);
    try (now apply with_running_app_ok);
    try (now apply start_with_blank_canvas_app_ok);
    try (now apply load_masterpiece_app_ok);
    try exact Happ.
  - apply with_brush_app_ok; [|now left|exact Happ].
    rewrite next_brush by assumption.
    apply Z.mod_pos_bound. unfold BRUSH_COUNT. lia.
  - apply with_brush_app_ok; [unfold BRUSH_COUNT; lia| |exact Happ].
    right. split; reflexivity.
  - apply with_color_app_ok; [|exact Happ]. rewrite next_color by assumption.
    pose proof (Z.mod_pos_bound (current_color (g_app g) + 1) 8 ltac:(lia)). lia.
  - apply with_color_app_ok; [|exact Happ].
    match goal with E : key_in key _ = true |- _ =>
      destruct (digit_key_color key E) as [-> ?] end. assumption.
Qed.

(** X4: what [start_stuff] establishes holds after every key: the canvas
    keeps its size and its [width * height] cells, the cursor stays inside
    the grid, the colour in [0,7] and the brush index in [0,10), the brush
    table is the original one or, with brush 0 selected, the eraser's, and
    every cell holds a colour in [0,7] and a character code in [0,255]. *)
Theorem main_loop_keeps_app_ok (writable : bool) (keys : list Z)
    (g : Globals) (d : disk) :
  app_ok g ->
  let g' := fst (main_loop writable keys (g, d)) in
  app_ok g' /\
  canvas_width (g_app g') = canvas_width (g_app g) /\
  canvas_height (g_app g') = canvas_height (g_app g).
Proof.
  revert g d. induction keys as [|key keys IH]; intros g d Happ; cbn zeta.
  - split; [exact Happ|split; reflexivity].
  - cbn [main_loop fst]. destruct (running (g_app g)).
    + destruct (input_stuff writable key (g, d)) as [g1 d1] eqn:E.
      pose proof (input_stuff_app_ok writable key g d Happ) as Happ1.
      pose proof (input_stuff_frame writable key g d) as (Hw & Hh & _).
      rewrite E in Happ1, Hw, Hh. cbn [fst] in *.
      destruct (IH g1 d1 Happ1) as (H1 & H2 & H3).
      split; [exact H1|]. split; congruence.
    + split; [exact Happ|split; reflexivity].
Qed.

(** [app_ok] of a given state, by evaluation. *)
Ltac concrete_app :=
  split; [concrete_canvas|];
  split; [unfold inside; simpl; lia|];
  split; [simpl; lia|];
  split; [unfold BRUSH_COUNT; simpl; lia|];
  split; [left; reflexivity|];
  cbv -[cell_ok]; repeat (constructor; [unfold cell_ok; cbn; lia|]); constructor.

Lemma main_loop_keeps_app_ok_witness :
  let g' := fst (main_loop true [KEY_RIGHT; 101; 32; 108] (corner_pen_down, None)) in
  app_ok g' /\ canvas_width (g_app g') = 3 /\ canvas_height (g_app g') = 2.
Proof.
  assert (Happ : app_ok corner_pen_down) by concrete_app.
  exact (main_loop_keeps_app_ok true [KEY_RIGHT; 101; 32; 108]
           corner_pen_down None Happ).
Defined.

(** ** Start-up *)

(** X1: [start_stuff] fails exactly when [initscr] fails, or the terminal
    has fewer than 20 columns or 10 lines, or the canvas cannot be
    allocated.  Otherwise it gives a state that satisfies [app_ok], with a
    canvas of [min COLS 1000] by [min (LINES - 3) 1000] cells, all of them
    a space in white, the cursor in the middle, the pen up, brush 0, white
    selected and the original brush table. *)
Theorem start_stuff_sets_up (initscr_ok : bool) (COLS LINES : Z)
    (malloc_ok : bool) :
  in_int COLS -> in_int LINES ->
  (start_stuff initscr_ok COLS LINES malloc_ok = None <->
   initscr_ok = false \/ COLS < 20 \/ LINES < 10 \/ malloc_ok = false) /\
  (initscr_ok = true -> 20 <= COLS -> 10 <= LINES -> malloc_ok = true ->
   exists g, start_stuff initscr_ok COLS LINES malloc_ok = Some g /\ app_ok g /\
     canvas_width (g_app g) = Z.min COLS 1000 /\
     canvas_height (g_app g) = Z.min (LINES - 3) 1000 /\
     canvas (g_app g)
     = replicate (Z.to_nat (Z.min COLS 1000 * Z.min (LINES - 3) 1000))
                 (mkCell SPACE 7) /\
     cursor_x (g_app g) = Z.min COLS 1000 / 2 /\
     cursor_y (g_app g) = Z.min (LINES - 3) 1000 / 2 /\
     pen_down (g_app g) = false /\ current_glyph g = 35 /\
     current_color (g_app g) = 7 /\ running (g_app g) = true).
Proof.
  intros HCi HLi. split; [apply start_stuff_fails|].
  intros -> HC HL ->.
  destruct (start_stuff_ok COLS LINES HC HL HCi HLi) as (g & Hg & Hok & Hcells).
  exists g. split; [exact Hg|].
  unfold start_stuff in Hg. cbn [negb] in Hg.
  destruct (Z.ltb_spec COLS 20); [lia|]. destruct (Z.ltb_spec LINES 10); [lia|].
  cbn [orb] in Hg. unfold canvas_fit in Hg. cbn [negb] in Hg.
  injection Hg as <-.
  unfold STATUS_LINES_TOP, STATUS_LINES_BOTTOM in *. unfold_limits.
  cbn [g_app canvas canvas_width canvas_height cursor_x cursor_y pen_down
       brush_index current_color running brush_chars] in *.
  rewrite (int_of_small (LINES - _)) in * by int_range.
  assert (Ew : (if COLS <? 1000 then COLS else 1000) = Z.min COLS 1000)
    by (destruct (Z.ltb_spec COLS 1000); lia).
  assert (Eh : (if LINES - (2 + 1) <? 1000 then LINES - (2 + 1) else 1000)
               = Z.min (LINES - 3) 1000)
    by (destruct (Z.ltb_spec (LINES - (2 + 1)) 1000); lia).
  rewrite Ew, Eh in *.
  assert (Hqx : Z.quot (Z.min COLS 1000) 2 = Z.min COLS 1000 / 2)
    by (apply Z.quot_div_nonneg; lia).
  assert (Hqy : Z.quot (Z.min (LINES - 3) 1000) 2 = Z.min (LINES - 3) 1000 / 2)
    by (apply Z.quot_div_nonneg; lia).
  rewrite Hqx, Hqy.
  assert (Hcx : 0 <= Z.min COLS 1000 / 2 < Z.min COLS 1000).
  { split; [apply Z.div_pos; lia|apply Z.div_lt_upper_bound; lia]. }
  assert (Hcy : 0 <= Z.min (LINES - 3) 1000 / 2 < Z.min (LINES - 3) 1000).
  { split; [apply Z.div_pos; lia|apply Z.div_lt_upper_bound; lia]. }
  split.
  { split; [exact Hok|]. split; [split; assumption|].
    split; [cbn; lia|]. split; [unfold BRUSH_COUNT; cbn; lia|].
    split; [left; reflexivity|].
    cbn [g_app canvas]. rewrite Hcells. apply Forall_replicate.
    unfold cell_ok, SPACE. cbn. lia. }
  repeat split; try reflexivity. exact Hcells.
Qed.

Lemma start_stuff_sets_up_witness :
  start_stuff false 80 24 true = None /\
  start_stuff true 19 24 true = None /\
  start_stuff true 80 24 false = None /\
  exists g, start_stuff true 80 24 true = Some g /\ app_ok g /\
    canvas_width (g_app g) = 80 /\ canvas_height (g_app g) = 21 /\
    cursor_x (g_app g) = 40 /\ cursor_y (g_app g) = 10.
Proof.
  assert (H80 : in_int 80) by int_range.
  assert (H24 : in_int 24) by int_range.
  assert (H19 : in_int 19) by int_range.
  split; [|split; [|split]].
  - apply (proj1 (start_stuff_sets_up false 80 24 true H80 H24)). now left.
  - apply (proj1 (start_stuff_sets_up true 19 24 true H19 H24)). right. left. lia.
  - apply (proj1 (start_stuff_sets_up true 80 24 false H80 H24)). now do 3 right.
  - destruct (proj2 (start_stuff_sets_up true 80 24 true H80 H24)
                eq_refl ltac:(lia) ltac:(lia) eq_refl)
      as (g & Hg & Happ & Hw & Hh & _ & Hx & Hy & _).
    exists g. split; [exact Hg|]. split; [exact Happ|].
    split; [exact Hw|]. split; [exact Hh|]. split; [exact Hx|exact Hy].
Defined.

(** ** Tools *)

(** X5: the eraser key selects brush 0 of a table whose first glyph is a
    space, so that painting then writes a space in the current colour at
    the cursor; the brush key always puts the original table back and goes
    to the next brush, round the ten brushes, so that after the eraser it
    selects brush 1. *)
Theorem eraser_and_brush_keys (writable : bool) (g : Globals) (d : disk) :
  app_ok g ->
  let erasing := fst (input_stuff writable 101 (g, d)) in
  let next := fst (input_stuff writable 98 (g, d)) in
  input_stuff writable 69 (g, d) = input_stuff writable 101 (g, d) /\
  input_stuff writable 66 (g, d) = input_stuff writable 98 (g, d) /\
  erasing = with_brush g 0 eraser_brush_chars /\
  current_glyph erasing = SPACE /\
  cell_at (paint_stuff erasing) (cursor_x (g_app g)) (cursor_y (g_app g))
  = Some (mkCell SPACE (current_color (g_app g))) /\
  next = with_brush g ((brush_index (g_app g) + 1) mod 10) original_brush_chars /\
  current_glyph next
  = nth (Z.to_nat ((brush_index (g_app g) + 1) mod 10)) original_brush_chars 0 /\
  brush_index (g_app (fst (input_stuff writable 98 (erasing, d)))) = 1.
Proof.
  intros Happ erasing next.
  pose proof Happ as (Hok & Hin & Hcol & Hidx & Hbr & Hcells).
  assert (Ee : erasing = with_brush g 0 eraser_brush_chars) by reflexivity.
  assert (En : next = with_brush g ((brush_index (g_app g) + 1) mod 10)
                        original_brush_chars).
  { unfold next, input_stuff. cbn [key_in existsb Z.eqb KEY_UP KEY_DOWN KEY_LEFT
      KEY_RIGHT Pos.eqb orb fst]. now rewrite next_brush. }
  split; [reflexivity|]. split; [reflexivity|]. split; [exact Ee|].
  split; [rewrite Ee; reflexivity|]. split.
  - assert (Hok1 : canvas_ok erasing) by (rewrite Ee; exact Hok).
    assert (Hin1 : inside erasing (cursor_x (g_app g)) (cursor_y (g_app g)))
      by (rewrite Ee; exact Hin).
    rewrite Ee in *. rewrite paint_stuff_inside by assumption.
    pose proof (cell_at_store (with_brush g 0 eraser_brush_chars)
                  (cursor_x (g_app g)) (cursor_y (g_app g))
                  (mkCell SPACE (current_color (g_app g)))
                  (cursor_x (g_app g)) (cursor_y (g_app g)) Hok1 Hin1 Hin1) as Hc.
    destruct (decide _) as [_|Hno] in Hc; [exact Hc|].
    exfalso. apply Hno. now split.
  - split; [exact En|]. split.
    + rewrite En. unfold current_glyph.
      cbn [with_brush g_app brush_index brush_chars].
      pose proof (Z.mod_pos_bound (brush_index (g_app g) + 1) 10 ltac:(lia)) as Hm.
      apply uchar_of_small.
      assert (Hcases : forall i, 0 <= i < 10 ->
                0 <= nth (Z.to_nat i) original_brush_chars 0 <= 255).
      { intros i Hi.
        assert (i = 0 \/ i = 1 \/ i = 2 \/ i = 3 \/ i = 4 \/ i = 5 \/ i = 6 \/
                i = 7 \/ i = 8 \/ i = 9) as Hc by lia.
        repeat (destruct Hc as [->|Hc]; [vm_compute; split; discriminate|]).
        subst. vm_compute. split; discriminate. }
      now apply Hcases.
    + rewrite Ee. reflexivity.
Qed.

Lemma eraser_and_brush_keys_witness :
  current_glyph (fst (input_stuff true 101 (corner_pen_down, None))) = 32 /\
  current_glyph (fst (input_stuff true 98 (corner_pen_down, None))) = 64.
Proof.
  assert (Happ : app_ok corner_pen_down) by concrete_app.
  destruct (eraser_and_brush_keys true corner_pen_down None Happ)
    as (_ & _ & _ & He & _ & _ & Hn & _).
  split; [exact He|exact Hn].
Defined.

(** X6: a key that has no [case] in [input_stuff] changes nothing, neither
    the state nor the save file; among them are upper-case [C] and the
    letters [W A S D H J K L] other than [S] and [L]. *)
Theorem unhandled_key_is_ignored (writable : bool) (key : Z)
    (s : Globals * disk) :
  key_in key handled_keys = false ->
  input_stuff writable key s = s.
Proof.
  intros Hkey. destruct s as [g d]. unfold input_stuff.
  unfold key_in, handled_keys in *. cbn [existsb] in *.
  repeat match type of Hkey with
  | (_ || _) = false => apply orb_false_iff in Hkey as [? Hkey]
  end.
  repeat match goal with
  | H : (key =? ?k) = false |- _ => rewrite H; clear H
  end.
  reflexivity.
Qed.

Lemma unhandled_key_is_ignored_witness :
  input_stuff true 67 (corner_pen_down, None) = (corner_pen_down, None) /\
  input_stuff true 119 (corner_pen_down, None) = (corner_pen_down, None) /\
  input_stuff true 104 (corner_pen_down, None) = (corner_pen_down, None).
Proof.
  split; [|split]; apply unhandled_key_is_ignored; reflexivity.
Defined.

Lemma with_color_same g : with_color g (current_color (g_app g)) = g.
Proof. destruct g as [[] ?]; reflexivity. Qed.

Lemma with_brush_same g :
  with_brush g (brush_index (g_app g)) (brush_chars g) = g.
Proof. destruct g as [[] ?]; reflexivity. Qed.

Lemma press_color_key writable d (k : nat) :
  forall g, 0 <= current_color (g_app g) <= 7 ->
    press writable (replicate k 99) (g, d)
    = (with_color g ((current_color (g_app g) + Z.of_nat k) mod 8), d).
Proof.
  induction k as [|k IH]; intros g Hc.
  - cbn [replicate press fold_left]. rewrite Z.add_0_r, Z.mod_small by lia.
    now rewrite with_color_same.
  - cbn [replicate]. unfold press in *. cbn [fold_left].
    change (input_stuff writable 99 (g, d))
      with (with_color g (short_of (Z.rem (int_of (current_color (g_app g) + 1))
                                          COLOR_COUNT)), d).
    rewrite next_color by assumption.
    pose proof (Z.mod_pos_bound (current_color (g_app g) + 1) 8 ltac:(lia)).
    rewrite IH by (cbn; lia).
    cbn [with_color g_app current_color canvas canvas_width canvas_height
         cursor_x cursor_y pen_down brush_index running brush_chars].
    f_equal. f_equal. rewrite Z.add_mod_idemp_l by lia. f_equal. lia.
Qed.

Lemma press_brush_key writable d (k : nat) :
  forall g, 0 <= brush_index (g_app g) < BRUSH_COUNT ->
    brush_chars g = original_brush_chars ->
    press writable (replicate k 98) (g, d)
    = (with_brush g ((brush_index (g_app g) + Z.of_nat k) mod 10)
                  original_brush_chars, d).
Proof.
  unfold BRUSH_COUNT. induction k as [|k IH]; intros g Hi Hchars.
  - cbn [replicate press fold_left]. rewrite Z.add_0_r, Z.mod_small by lia.
    now rewrite <- Hchars, with_brush_same.
  - cbn [replicate]. unfold press in *. cbn [fold_left].
    change (input_stuff writable 98 (g, d))
      with (with_brush g
              (int_of (size_t_of (int_of (brush_index (g_app g) + 1))
                       mod BRUSH_COUNT))
              original_brush_chars, d).
    rewrite next_brush by (unfold BRUSH_COUNT; assumption).
    pose proof (Z.mod_pos_bound (brush_index (g_app g) + 1) 10 ltac:(lia)).
    rewrite IH by (cbn; lia || reflexivity).
    cbn [with_brush g_app current_color canvas canvas_width canvas_height
         cursor_x cursor_y pen_down brush_index running brush_chars].
    f_equal. f_equal. rewrite Z.add_mod_idemp_l by lia. f_equal. lia.
Qed.

Lemma press_brush_key_any writable d (k : nat) g :
  0 <= brush_index (g_app g) < BRUSH_COUNT ->
  press writable (replicate (S k) 98) (g, d)
  = (with_brush g ((brush_index (g_app g) + Z.of_nat (S k)) mod 10)
                original_brush_chars, d).
Proof.
  intros Hi. cbn [replicate]. unfold press. cbn [fold_left].
  change (input_stuff writable 98 (g, d))
    with (with_brush g
            (int_of (size_t_of (int_of (brush_index (g_app g) + 1))
                     mod BRUSH_COUNT))
            original_brush_chars, d).
  rewrite next_brush by assumption.
  pose proof (Z.mod_pos_bound (brush_index (g_app g) + 1) 10 ltac:(lia)).
  fold (press writable (replicate k 98)
          (with_brush g ((brush_index (g_app g) + 1) mod 10)
                      original_brush_chars, d)).
  rewrite press_brush_key by (unfold BRUSH_COUNT; cbn; lia || reflexivity).
  cbn [with_brush g_app current_color canvas canvas_width canvas_height
       cursor_x cursor_y pen_down brush_index running brush_chars].
  f_equal. f_equal. rewrite Z.add_mod_idemp_l by lia. f_equal. lia.
Qed.

Lemma step_mod_back c k n :
  0 < n -> 0 <= c < n -> 0 <= k ->
  ((c + k) mod n = c <-> k mod n = 0).
Proof.
  intros Hn Hc Hk. rewrite Z.add_mod by lia.
  rewrite (Z.mod_small c n) by lia.
  pose proof (Z.mod_pos_bound k n Hn) as Hb.
  destruct (Z_lt_ge_dec (c + k mod n) n) as [Hlt|Hge].
  - rewrite Z.mod_small by lia. lia.
  - replace (c + k mod n) with ((c + k mod n - n) + 1 * n) by lia.
    rewrite Z.mod_add, Z.mod_small by lia. lia.
Qed.

(** X7: every press of the colour key goes to the next of the eight
    colours and changes nothing else: [k] presses of [c] lead from colour
    [col] to colour [(col + k) mod 8], which is [col] again exactly when
    [k] is a multiple of 8.  Every press of the brush key goes to the next
    of the ten brushes of the original table: [k >= 1] presses of [b]
    lead from brush [i] to brush [(i + k) mod 10] of that table, which is
    brush [i] again exactly when [k] is a multiple of 10. *)
Theorem tool_keys_cycle (writable : bool) (k : nat) (g : Globals)
    (d : disk) :
  app_ok g ->
  let colour := (current_color (g_app g) + Z.of_nat k) mod 8 in
  let brush := (brush_index (g_app g) + Z.of_nat k) mod 10 in
  press writable (replicate k 99) (g, d) = (with_color g colour, d) /\
  (colour = current_color (g_app g) <-> Z.of_nat k mod 8 = 0) /\
  ((0 < k)%nat ->
   press writable (replicate k 98) (g, d)
   = (with_brush g brush original_brush_chars, d)) /\
  (brush = brush_index (g_app g) <-> Z.of_nat k mod 10 = 0).
Proof.
  intros (_ & _ & Hcol & Hidx & _ & _) colour brush.
  split; [now apply press_color_key|].
  split; [apply step_mod_back; lia|].
  split; [|unfold BRUSH_COUNT in Hidx; apply step_mod_back; lia].
  intros Hk. destruct k as [|k]; [lia|].
  now apply press_brush_key_any.
Qed.

Lemma tool_keys_cycle_witness :
  press true [99] (corner_pen_down, None)
  = (with_color corner_pen_down 5, None) /\
  press true (replicate 8 99) (corner_pen_down, None) = (corner_pen_down, None) /\
  press true [98; 98; 98] (corner_pen_down, None)
  = (with_brush corner_pen_down 4 original_brush_chars, None) /\
  press true (replicate 10 98) (corner_pen_down, None) = (corner_pen_down, None).
Proof.
  assert (Happ : app_ok corner_pen_down) by concrete_app.
  split; [|split; [|split]].
  - exact (proj1 (tool_keys_cycle true 1 corner_pen_down None Happ)).
  - exact (proj1 (tool_keys_cycle true 8 corner_pen_down None Happ)).
  - exact (proj1 (proj2 (proj2 (tool_keys_cycle true 3 corner_pen_down None Happ)))
                 ltac:(lia)).
  - exact (proj1 (proj2 (proj2 (tool_keys_cycle true 10 corner_pen_down None Happ)))
                 ltac:(lia)).
Defined.

(** ** Quitting *)

Lemma main_loop_stopped writable keys s :
  running (g_app (fst s)) = false -> main_loop writable keys s = s.
Proof. intros H. destruct keys; cbn; [reflexivity|]. now rewrite H. Qed.

Lemma quit_key writable key g d :
  key_in key [113; 81; 27] = true ->
  input_stuff writable key (g, d) = (with_running g false, d).
Proof.
  intros H%key_in_true. cbn in H.
  repeat (destruct H as [<-|H]; [reflexivity|]). contradiction.
Qed.

(** X8: the main loop ends at the first quit key ([q], [Q] or escape):
    the key clears [running] and changes nothing else, and no key after it
    is handled. *)
Theorem main_loop_ends_at_quit (writable : bool) (before after : list Z)
    (quit : Z) (s : Globals * disk) :
  key_in quit [113; 81; 27] = true ->
  let s' := main_loop writable (before ++ [quit]) s in
  main_loop writable (before ++ quit :: after) s = s' /\
  running (g_app (fst s')) = false /\
  (running (g_app (fst (main_loop writable before s))) = true ->
   s' = (with_running (fst (main_loop writable before s)) false,
         snd (main_loop writable before s))).
Proof.
  intros Hq. revert s. induction before as [|key before IH]; intros [g d]; cbn zeta.
  - cbn [app main_loop fst]. destruct (running (g_app g)) eqn:Hrun.
    + rewrite (quit_key writable quit g d Hq).
      rewrite main_loop_stopped by reflexivity.
      repeat split; reflexivity.
    + repeat split; try assumption. discriminate.
  - cbn [app main_loop fst]. destruct (running (g_app g)) eqn:Hrun.
    + apply IH.
    + repeat split; try assumption. cbn [fst]. congruence.
Qed.

Lemma main_loop_ends_at_quit_witness :
  main_loop true [KEY_RIGHT; 113; 32; KEY_DOWN] (corner_pen_down, None)
  = main_loop true [KEY_RIGHT; 113] (corner_pen_down, None) /\
  running (g_app (fst (main_loop true [KEY_RIGHT; 113] (corner_pen_down, None))))
  = false.
Proof.
  destruct (main_loop_ends_at_quit true [KEY_RIGHT] [32; KEY_DOWN] 113
              (corner_pen_down, None) eq_refl) as (H1 & H2 & _).
  split; [exact H1|exact H2].
Defined.

(** ** Saving, editing, loading *)

Lemma press_frame writable (keys : list Z) :
  forall g d, app_ok g ->
    Forall (fun key => key <> 115 /\ key <> 83) keys ->
    let s' := press writable keys (g, d) in
    app_ok (fst s') /\
    canvas_width (g_app (fst s')) = canvas_width (g_app g) /\
    canvas_height (g_app (fst s')) = canvas_height (g_app g) /\
    snd s' = d.
Proof.
  induction keys as [|key keys IH]; intros g d Happ Hkeys; cbn zeta.
  - cbn. split; [exact Happ|]. repeat split; reflexivity.
  - inversion Hkeys as [|? ? [Hs HS] Hrest]; subst.
    unfold press in *. cbn [fold_left].
    destruct (input_stuff writable key (g, d)) as [g1 d1] eqn:E.
    pose proof (input_stuff_app_ok writable key g d Happ) as Happ1.
    pose proof (input_stuff_frame writable key g d) as (Hw & Hh & Hd).
    rewrite E in Happ1, Hw, Hh, Hd. cbn [fst snd] in *.
    destruct (IH g1 d1 Happ1 Hrest) as (H1 & H2 & H3 & H4).
    split; [exact H1|]. split; [congruence|]. split; [congruence|].
    rewrite H4. now apply Hd.
Qed.

(** X9: after the save key (the file being writable), any keys other than
    the save key, and then the load key, the canvas holds the cells it held
    when it was saved; the rest of the state is as the keys in between
    left it. *)
Theorem save_edit_load_restores (writable : bool) (keys : list Z)
    (g : Globals) (d : disk) :
  app_ok g ->
  Forall (fun key => key <> 115 /\ key <> 83) keys ->
  let edited := press writable keys (input_stuff true 115 (g, d)) in
  input_stuff writable 108 edited
  = (with_canvas (fst edited) (canvas (g_app g)), Some (serialize_spec g)).
Proof.
  intros Happ Hkeys edited.
  pose proof Happ as (Hok & _ & _ & _ & _ & Hcells).
  pose (saved := Some (serialize_spec g) : disk).
  assert (Esave : input_stuff true 115 (g, d) = (g, saved)).
  { change (input_stuff true 115 (g, d)) with (g, save_masterpiece true g d).
    now rewrite save_is_serialize. }
  destruct (press_frame writable keys g saved Happ Hkeys)
    as (Happ2 & Hw & Hh & Hd).
  unfold edited. clear edited. rewrite Esave.
  destruct (press writable keys (g, saved)) as [g2 d2].
  cbn [fst snd] in *. subst d2.
  change (input_stuff writable 108 (g2, saved))
    with (load_masterpiece saved g2, saved).
  f_equal. unfold load_masterpiece, saved. rewrite parse_saved by assumption.
  rewrite <- Hw, <- Hh. rewrite copy_overlap_same_size; [reflexivity|apply Happ2|].
  destruct Hok as (_ & _ & Hl), Happ2 as ((_ & _ & Hl2) & _). nia.
Qed.

Lemma save_edit_load_restores_witness :
  canvas (g_app (fst (input_stuff true 108
    (press true [KEY_RIGHT; KEY_DOWN; 120; 113]
       (input_stuff true 115 (painted_example, None))))))
  = canvas (g_app painted_example).
Proof.
  assert (Happ : app_ok painted_example) by concrete_app.
  assert (Hkeys : Forall (fun key => key <> 115 /\ key <> 83)
                    [KEY_RIGHT; KEY_DOWN; 120; 113]).
  { repeat constructor; unfold KEY_RIGHT, KEY_DOWN; lia. }
  exact (f_equal (fun s : Globals * disk => canvas (g_app (fst s)))
           (save_edit_load_restores true _ painted_example None Happ Hkeys)).
Defined.

(** ** Loading twice *)

Lemma with_canvas_twice g a b : with_canvas (with_canvas g a) b = with_canvas g b.
Proof. reflexivity. Qed.

Lemma offset_decompose w h (i : nat) :
  0 < w -> Z.of_nat i < w * h ->
  exists x y, 0 <= x < w /\ 0 <= y < h /\ i = Z.to_nat (y * w + x).
Proof.
  intros Hw Hi. exists (Z.of_nat i mod w), (Z.of_nat i / w).
  pose proof (Z.div_mod (Z.of_nat i) w ltac:(lia)) as Hdm.
  pose proof (Z.mod_pos_bound (Z.of_nat i) w ltac:(lia)) as Hmod.
  split; [assumption|]. split.
  - split; [apply Z.div_pos; lia|]. apply Z.div_lt_upper_bound; lia.
  - lia.
Qed.

(** X10: loading is idempotent: loading the same file a second time
    changes nothing more. *)
Theorem load_masterpiece_twice (d : disk) (g : Globals) :
  canvas_ok g ->
  load_masterpiece d (load_masterpiece d g) = load_masterpiece d g.
Proof.
  intros Hok. unfold load_masterpiece at 2 3. destruct d as [f|]; [|reflexivity].
  destruct (parse_masterpiece f) as [[[fw fh] temp]|] eqn:E;
    [|unfold load_masterpiece; now rewrite E].
  destruct (parse_masterpiece_Some _ _ _ _ E) as (Hfw & Hfh & Hlen).
  destruct (copy_overlap_lookup g fw temp Hok Hfw fh Hfh) as [Hl Hget].
  set (g1 := with_canvas g (copy_overlap g fw fh temp)).
  assert (Hok1 : canvas_ok g1) by (apply with_canvas_ok; assumption).
  destruct (copy_overlap_lookup g1 fw temp Hok1 Hfw fh Hfh) as [Hl1 Hget1].
  unfold load_masterpiece. rewrite E. unfold g1 at 1. rewrite with_canvas_twice.
  fold g1. f_equal. apply list_eq. intros i.
  pose proof Hok as (Hw & Hh & Hcl).
  destruct (decide (Z.of_nat i < canvas_width (g_app g) * canvas_height (g_app g)))
    as [Hi|Hi].
  - destruct (offset_decompose _ _ i (proj1 Hw) Hi) as (x & y & Hx & Hy & ->).
    assert (Hin : inside g x y) by (split; assumption).
    specialize (Hget1 x y Hin). specialize (Hget x y Hin).
    cbn [g1 with_canvas g_app canvas canvas_width canvas_height] in Hget1.
    rewrite Hget1, Hget. destruct (_ && _); reflexivity.
  - rewrite !lookup_ge_None_2; [reflexivity| |].
    + rewrite Hl. lia.
    + rewrite Hl1. cbn [g1 with_canvas g_app canvas]. rewrite Hl. lia.
Qed.

Lemma load_masterpiece_twice_witness :
  load_masterpiece (Some painted_text)
    (load_masterpiece (Some painted_text) (blank 5 5))
  = load_masterpiece (Some painted_text) (blank 5 5).
Proof.
  apply load_masterpiece_twice. concrete_canvas.
Defined.

(** ** Addressing *)

(** X11: [find_spot] is one-to-one from the grid onto the buffer: two
    coordinate pairs with the same cell are the same pair, and every cell
    of the buffer is the cell of some coordinates. *)
Theorem find_spot_is_a_bijection (g : Globals) :
  canvas_ok g ->
  (forall x y x' y' p,
     find_spot g x y = Some p -> find_spot g x' y' = Some p ->
     x = x' /\ y = y') /\
  (forall p, in_buffer (canvas (g_app g)) p ->
     exists x y, inside g x y /\ find_spot g x y = Some p).
Proof.
  intros Hok. pose proof Hok as (Hw & Hh & Hlen). split.
  - intros x y x' y' p H1 H2.
    pose proof (find_spot_Some _ _ _ _ H1) as Hin1.
    pose proof (find_spot_Some _ _ _ _ H2) as Hin2.
    rewrite find_spot_inside in H1, H2 by assumption.
    injection H1 as <-. injection H2 as E.
    destruct Hin1, Hin2.
    assert (Heq : Z.to_nat (y * canvas_width (g_app g) + x)
                  = Z.to_nat (y' * canvas_width (g_app g) + x'))
      by now rewrite E.
    destruct (offset_inj (canvas_width (g_app g)) x y x' y'
                ltac:(lia) ltac:(lia) ltac:(lia) ltac:(lia) Heq) as [-> ->].
    now split.
  - intros p [Hp0 Hp]. rewrite Hlen in Hp.
    destruct (offset_decompose (canvas_width (g_app g)) (canvas_height (g_app g))
                (Z.to_nat p) (proj1 Hw) ltac:(lia))
      as (x & y & Hx & Hy & E).
    exists x, y. assert (Hin : inside g x y) by (split; assumption).
    split; [exact Hin|]. rewrite find_spot_inside by assumption. f_equal.
    assert (0 <= y * canvas_width (g_app g)) by nia. lia.
Qed.

Lemma find_spot_is_a_bijection_witness :
  (forall x y, find_spot corner_pen_down x y = Some 4 -> x = 1 /\ y = 1) /\
  exists x y, find_spot corner_pen_down x y = Some 5.
Proof.
  assert (Hok : canvas_ok corner_pen_down) by concrete_canvas.
  destruct (find_spot_is_a_bijection corner_pen_down Hok) as [Hinj Hsur].
  split.
  - intros x y H. exact (Hinj x y 1 1 4 H eq_refl).
  - destruct (Hsur 5 ltac:(unfold in_buffer; simpl; lia)) as (x & y & _ & H).
    exists x, y. exact H.
Defined.

(** ** The temporary grid *)

Lemma readers_agree_failed k r1 r2 :
  rd_file r1 = rd_file r2 -> read_success r1 = false -> read_success r2 = false ->
  length (temp_canvas r1) = length (temp_canvas r2) ->
  readers_agree k r1 r2.
Proof.
  intros Hf H1 H2 Hl. repeat split; try congruence.
Qed.

Lemma readers_agree_mono k k' r1 r2 :
  read_success r1 = false -> readers_agree k r1 r2 -> readers_agree k' r1 r2.
Proof.
  intros Hs (Hf & Hsucc & Hl & _). repeat split; try assumption. congruence.
Qed.

Lemma read_cell_agree fw y x r1 r2 :
  0 < fw <= 1000 -> 0 <= y < 1000 -> 0 <= x < fw ->
  y * fw + x < Z.of_nat (length (temp_canvas r1)) ->
  read_success r1 = true ->
  readers_agree (y * fw + x) r1 r2 ->
  readers_agree (y * fw + x + 1) (read_cell fw y x r1) (read_cell fw y x r2).
Proof.
  intros Hfw Hy Hx Hlen Hs1 (Hf & Hsucc & Hl & Hsame).
  unfold read_cell. rewrite <- Hf.
  destruct (fscanf_d_comma_d (rd_file r1) 0 32) as [[[n c] a] f1].
  destruct (negb (n =? 2)).
  { apply readers_agree_failed; [reflexivity..|exact Hl]. }
  assert (0 <= y * fw <= 1000 * 1000) by nia.
  rewrite (int_of_small (y * fw)) by int_range.
  rewrite int_of_small by int_range.
  destruct (sneak_peek_at_file f1) as [c0 f2].
  split; [reflexivity|]. split; [reflexivity|]. cbn [temp_canvas read_success].
  split; [now rewrite !length_store|].
  intros _ i Hi.
  rewrite !lookup_store by (unfold in_buffer; lia).
  destruct (decide (Z.to_nat (y * fw + x) = i)); [reflexivity|].
  apply Hsame; [exact Hs1|lia].
Qed.

Lemma read_cells_agree fw y (n : nat) :
  0 < fw <= 1000 -> 0 <= y < 1000 ->
  forall x r1 r2,
    0 <= x -> x + Z.of_nat n <= fw ->
    y * fw + fw <= Z.of_nat (length (temp_canvas r1)) ->
    readers_agree (y * fw + x) r1 r2 ->
    readers_agree (y * fw + x + Z.of_nat n)
      (for_loop n x read_success (read_cell fw y) r1)
      (for_loop n x read_success (read_cell fw y) r2).
Proof.
  intros Hfw Hy. induction n as [|n IH]; intros x r1 r2 Hx Hn Hlen Hagree.
  - cbn [for_loop]. now rewrite Z.add_0_r.
  - cbn [for_loop]. pose proof Hagree as (_ & Hsucc & _ & _). rewrite <- Hsucc.
    destruct (read_success r1) eqn:Hs1.
    + replace (y * fw + x + Z.of_nat (S n)) with (y * fw + (x + 1) + Z.of_nat n)
        by lia.
      apply IH; [lia|lia|rewrite read_cell_length; lia|].
      replace (y * fw + (x + 1)) with (y * fw + x + 1) by lia.
      apply read_cell_agree; try assumption; lia.
    + now apply (readers_agree_mono (y * fw + x)).
Qed.

Lemma read_row_agree fw y r1 r2 :
  0 < fw <= 1000 -> 0 <= y < 1000 ->
  y * fw + fw <= Z.of_nat (length (temp_canvas r1)) ->
  readers_agree (y * fw) r1 r2 ->
  readers_agree ((y + 1) * fw) (read_row fw y r1) (read_row fw y r2).
Proof.
  intros Hfw Hy Hlen Hagree. unfold read_row, for_upto.
  pose proof (read_cells_agree fw y (Z.to_nat fw) Hfw Hy 0 r1 r2
                ltac:(lia) ltac:(lia) Hlen) as H.
  rewrite Z.add_0_r in H. specialize (H Hagree).
  destruct H as (Hf & Hs & Hl & Hsame).
  split; [cbn [rd_file]; now rewrite Hf|]. split; [exact Hs|].
  split; [exact Hl|]. cbn [temp_canvas read_success].
  intros Hs1 i Hi. apply Hsame; [exact Hs1|lia].
Qed.

Lemma read_rows_agree fw (m : nat) :
  0 < fw <= 1000 ->
  forall y r1 r2,
    0 <= y -> y + Z.of_nat m <= 1000 ->
    (y + Z.of_nat m) * fw <= Z.of_nat (length (temp_canvas r1)) ->
    readers_agree (y * fw) r1 r2 ->
    readers_agree ((y + Z.of_nat m) * fw)
      (for_loop m y read_success (read_row fw) r1)
      (for_loop m y read_success (read_row fw) r2).
Proof.
  intros Hfw. induction m as [|m IH]; intros y r1 r2 Hy Hm Hlen Hagree.
  - cbn [for_loop]. now rewrite Z.add_0_r.
  - cbn [for_loop]. pose proof Hagree as (_ & Hsucc & _ & _). rewrite <- Hsucc.
    destruct (read_success r1) eqn:Hs1.
    + replace (y + Z.of_nat (S m)) with (y + 1 + Z.of_nat m) in * by lia.
      apply IH; [lia|lia|rewrite read_row_length; lia|].
      apply read_row_agree; try assumption; nia.
    + now apply (readers_agree_mono (y * fw)).
Qed.

(** X12: what the read loops leave does not depend on what the freshly
    allocated temporary grid held: from two grids of the declared size the
    loops stop at the same point of the file with the same outcome, and
    when they succeed every cell of the grid has been written from the
    file, so the two grids are equal. *)
Theorem read_canvas_data_overwrites_grid (fw fh : Z) (f : FILE)
    (temp1 temp2 : list Cell) :
  0 < fw <= MAX_CANVAS_WIDTH -> 0 < fh <= MAX_CANVAS_HEIGHT ->
  Z.of_nat (length temp1) = fw * fh -> length temp2 = length temp1 ->
  let r1 := read_canvas_data fw fh (mkReader f temp1 true) in
  let r2 := read_canvas_data fw fh (mkReader f temp2 true) in
  rd_file r1 = rd_file r2 /\ read_success r1 = read_success r2 /\
  (read_success r1 = true -> temp_canvas r1 = temp_canvas r2).
Proof.
  intros Hfw Hfh Hl1 Hl2 r1 r2. unfold_limits.
  pose proof (read_rows_agree fw (Z.to_nat fh) Hfw 0
                (mkReader f temp1 true) (mkReader f temp2 true)
                ltac:(lia) ltac:(lia)) as H.
  cbn [temp_canvas] in H.
  specialize (H ltac:(nia)).
  assert (H0 : readers_agree (0 * fw) (mkReader f temp1 true) (mkReader f temp2 true)).
  { repeat split; try reflexivity; cbn [temp_canvas]; [congruence|]. intros _ i Hi. lia. }
  specialize (H H0). fold (for_upto fh read_success (read_row fw)) in H.
  destruct H as (Hf & Hs & Hl & Hsame).
  split; [exact Hf|]. split; [exact Hs|].
  intros Hs1. apply list_eq. intros i.
  destruct (decide (Z.of_nat i < (0 + Z.of_nat (Z.to_nat fh)) * fw)) as [Hi|Hi].
  - now apply Hsame.
  - assert (Hlen1 : length (temp_canvas r1) = length temp1)
      by apply read_canvas_data_length.
    assert (Hlen2 : length (temp_canvas r2) = length temp2)
      by apply read_canvas_data_length.
    rewrite !lookup_ge_None_2; [reflexivity|nia|nia].
Qed.

Lemma read_canvas_data_overwrites_grid_witness :
  temp_canvas (read_canvas_data 2 1
                 (mkReader (text "1,35 2,36") [mkCell 65 5; mkCell 66 6] true))
  = temp_canvas (read_canvas_data 2 1
                 (mkReader (text "1,35 2,36") [garbage; garbage] true)).
Proof.
  destruct (read_canvas_data_overwrites_grid 2 1 (text "1,35 2,36")
              [mkCell 65 5; mkCell 66 6] [garbage; garbage]
              ltac:(unfold_limits; lia) ltac:(unfold_limits; lia)
              eq_refl eq_refl) as (_ & _ & H).
  exact (H eq_refl).
Defined.

(** ** Rendering *)

Lemma render_stuff_inside g x y out :
  canvas_ok g -> Forall cell_ok (canvas (g_app g)) -> inside g x y ->
  render_stuff g x y out
  = out ++ draw_cell (deref (canvas (g_app g)) (y * canvas_width (g_app g) + x)) x y.
Proof.
  intros Hok Hcells Hin. unfold render_stuff, draw_cell.
  rewrite find_spot_inside by assumption.
  destruct (deref_ok (canvas (g_app g)) (y * canvas_width (g_app g) + x) Hcells)
    as [Hc _].
  destruct Hok as (_ & Hh & _), Hin as [_ Hy]. unfold_limits.
  unfold canvas_to_screen_y, canvas_to_screen_x, STATUS_LINES_TOP.
  rewrite !int_of_small by int_range.
  do 3 f_equal. f_equal. lia.
Qed.

Lemma paint_columns g y (n : nat) :
  canvas_ok g -> Forall cell_ok (canvas (g_app g)) ->
  0 <= y < canvas_height (g_app g) ->
  forall x out,
    0 <= x -> x + Z.of_nat n <= canvas_width (g_app g) ->
    for_loop n x always (fun x out => render_stuff g x y out) out
    = out ++ concat ((fun x =>
                        draw_cell (deref (canvas (g_app g))
                                         (y * canvas_width (g_app g) + x)) x y)
                       <$> seqZ x (Z.of_nat n)).
Proof.
  intros Hok Hcells Hy. induction n as [|n IH]; intros x out Hx Hn.
  - cbn. now rewrite app_nil_r.
  - cbn [for_loop always]. rewrite seqZ_step.
    rewrite render_stuff_inside by (assumption || (unfold inside; lia)).
    rewrite IH by lia. cbn [fmap list_fmap concat]. now rewrite <- app_assoc.
Qed.

Lemma paint_lines g (m : nat) :
  canvas_ok g -> Forall cell_ok (canvas (g_app g)) ->
  forall y out,
    0 <= y -> y + Z.of_nat m <= canvas_height (g_app g) ->
    for_loop m y always
      (fun y out =>
         for_upto (canvas_width (g_app g)) always
           (fun x out => render_stuff g x y out) out) out
    = out ++ concat
        ((fun y =>
            concat ((fun x =>
                       draw_cell (deref (canvas (g_app g))
                                        (y * canvas_width (g_app g) + x)) x y)
                      <$> seqZ 0 (canvas_width (g_app g))))
           <$> seqZ y (Z.of_nat m)).
Proof.
  intros Hok Hcells. pose proof Hok as (Hw & _).
  induction m as [|m IH]; intros y out Hy Hm.
  - cbn. now rewrite app_nil_r.
  - cbn [for_loop always]. rewrite seqZ_step. unfold for_upto at 2.
    rewrite paint_columns by (assumption || lia).
    rewrite Z2Nat.id by lia.
    rewrite IH by lia. cbn [fmap list_fmap concat]. now rewrite <- app_assoc.
Qed.

Lemma paint_entire_canvas_draws g out :
  canvas_ok g -> Forall cell_ok (canvas (g_app g)) ->
  paint_entire_canvas g out = out ++ draw_all g.
Proof.
  intros Hok Hcells. pose proof Hok as (_ & Hh & _).
  unfold paint_entire_canvas, draw_all, for_upto at 1.
  rewrite paint_lines by (assumption || lia). now rewrite Z2Nat.id by lia.
Qed.

Lemma length_concat_uniform {A B : Type} (k : nat) (f : A -> list B) (l : list A) :
  (forall a, length (f a) = k) ->
  length (concat (f <$> l)) = (length l * k)%nat.
Proof.
  intros Hf. induction l as [|a l IH]; [reflexivity|].
  cbn [fmap list_fmap concat length]. rewrite length_app, Hf.
  change (list_fmap A (list B) f l) with (f <$> l). rewrite IH. lia.
Qed.

(** X13: a full redraw makes the calls that draw every cell of the canvas
    exactly once, row by row and left to right: cell [(x, y)] at screen row
    [y + 2], column [x], in colour pair [color + 1], a cell whose character
    is 0 as a space.  It draws nowhere else: not on the two status lines,
    and never the character 0. *)
Theorem paint_entire_canvas_draws_each_cell (g : Globals)
    (out : list curses_call) :
  canvas_ok g -> Forall cell_ok (canvas (g_app g)) ->
  paint_entire_canvas g out = out ++ draw_all g /\
  Forall (draws_in_canvas_area g) (draw_all g) /\
  Z.of_nat (length (draw_all g))
  = 3 * (canvas_width (g_app g) * canvas_height (g_app g)).
Proof.
  intros Hok Hcells. pose proof Hok as (Hw & Hh & _).
  split; [now apply paint_entire_canvas_draws|]. split.
  - unfold draw_all. apply Forall_concat, Forall_fmap, Forall_seqZ.
    intros y Hy. cbn. apply Forall_concat, Forall_fmap, Forall_seqZ.
    intros x Hx. cbn. unfold draw_cell.
    repeat constructor; try lia.
    unfold shown_glyph, SPACE.
    match goal with |- context [ch ?c =? 0] => destruct (Z.eqb_spec (ch c) 0) end;
      lia.
  - unfold draw_all.
    rewrite (length_concat_uniform (3 * Z.to_nat (canvas_width (g_app g)))).
    + rewrite length_seqZ. unfold_limits. nia.
    + intros y. rewrite (length_concat_uniform 3).
      * rewrite length_seqZ. lia.
      * reflexivity.
Qed.

Lemma paint_entire_canvas_draws_each_cell_witness :
  paint_entire_canvas (blank 2 1) []
  = [attrset (COLOR_PAIR 8); mvaddch 2 0 32; attrset A_NORMAL;
     attrset (COLOR_PAIR 8); mvaddch 2 1 32; attrset A_NORMAL].
Proof.
  assert (Hok : canvas_ok (blank 2 1)) by concrete_canvas.
  assert (Hcells : Forall cell_ok (canvas (g_app (blank 2 1)))).
  { cbv -[cell_ok]. repeat (constructor; [unfold cell_ok; cbn; lia|]). constructor. }
  destruct (paint_entire_canvas_draws_each_cell (blank 2 1) [] Hok Hcells)
    as (H & _). rewrite H. reflexivity.
Defined.

Lemma current_glyph_nonzero g : app_ok g -> current_glyph g <> 0.
Proof.
  intros (_ & _ & _ & Hidx & Hbr & _). unfold current_glyph, BRUSH_COUNT in *.
  destruct Hbr as [-> | [-> ->]]; [|vm_compute; discriminate].
  assert (Hi : brush_index (g_app g) = 0 \/ brush_index (g_app g) = 1 \/
               brush_index (g_app g) = 2 \/ brush_index (g_app g) = 3 \/
               brush_index (g_app g) = 4 \/ brush_index (g_app g) = 5 \/
               brush_index (g_app g) = 6 \/ brush_index (g_app g) = 7 \/
               brush_index (g_app g) = 8 \/ brush_index (g_app g) = 9) by lia.
  repeat (destruct Hi as [-> | Hi]; [vm_compute; discriminate|]).
  rewrite Hi. vm_compute. discriminate.
Qed.

(** X14: clearing the canvas redraws all of it: every cell of the grid is
    drawn once, row by row, as a space in the colour pair of the current
    colour. *)
Theorem start_with_blank_canvas_redraws (g : Globals)
    (out : list curses_call) :
  canvas_ok g -> 0 <= current_color (g_app g) <= 7 ->
  start_with_blank_canvas_screen g out
  = out ++ draw_blank (canvas_width (g_app g)) (canvas_height (g_app g))
                      (current_color (g_app g) + 1).
Proof.
  intros Hok Hcol. pose proof Hok as (Hw & Hh & Hlen).
  unfold start_with_blank_canvas_screen.
  assert (Hcells : Forall cell_ok (canvas (g_app (start_with_blank_canvas g)))).
  { rewrite blank_canvas_cells by assumption. apply Forall_replicate.
    unfold cell_ok, SPACE. cbn. lia. }
  rewrite paint_entire_canvas_draws
    by (assumption || now apply start_with_blank_canvas_ok).
  f_equal. unfold draw_all, draw_blank.
  rewrite blank_canvas_cells by assumption.
  cbn [start_with_blank_canvas with_canvas g_app canvas_width canvas_height].
  apply (f_equal (@concat _)), list_fmap_ext. intros i y Hy.
  apply (f_equal (@concat _)), list_fmap_ext. intros j x Hx.
  apply lookup_seqZ in Hy as [-> Hi], Hx as [-> Hj].
  unfold draw_cell, deref.
  destruct (Z.ltb_spec ((0 + Z.of_nat i) * canvas_width (g_app g)
                        + (0 + Z.of_nat j)) 0); [nia|].
  rewrite lookup_replicate_2 by nia. reflexivity.
Qed.

Lemma start_with_blank_canvas_redraws_witness :
  start_with_blank_canvas_screen corner_pen_down []
  = draw_blank 3 2 5.
Proof.
  apply (start_with_blank_canvas_redraws corner_pen_down []).
  - concrete_canvas.
  - cbn. lia.
Defined.

(** X15: with the program's state in order, painting draws on the screen
    what it stored: the current brush glyph, never the character 0, at the
    cursor's place two rows down, in the colour pair of the current colour;
    it draws nothing else. *)
Theorem paint_stuff_draws_the_glyph (g : Globals) (out : list curses_call) :
  app_ok g ->
  paint_stuff_screen g out
  = out ++ [attrset (COLOR_PAIR (current_color (g_app g) + 1));
            mvaddch (cursor_y (g_app g) + 2) (cursor_x (g_app g))
                    (current_glyph g);
            attrset A_NORMAL] /\
  current_glyph g <> 0.
Proof.
  intros Happ. pose proof (current_glyph_nonzero g Happ) as Hnz.
  pose proof (paint_stuff_app_ok g Happ) as (Hok' & _ & _ & _ & _ & Hcells').
  destruct Happ as (Hok & Hin & Hcol & Hidx & Hbr & Hcells).
  split; [|exact Hnz]. unfold paint_stuff_screen.
  assert (Hin' : inside (paint_stuff g) (cursor_x (g_app g)) (cursor_y (g_app g))).
  { rewrite paint_stuff_inside by assumption. exact Hin. }
  rewrite render_stuff_inside by assumption.
  rewrite paint_stuff_inside by assumption.
  cbn [with_canvas g_app canvas canvas_width].
  assert (Hbuf : in_buffer (canvas (g_app g))
                   (cursor_y (g_app g) * canvas_width (g_app g)
                    + cursor_x (g_app g))).
  { destruct Hok as (Hw & Hh & Hlen), Hin as [Hx Hy]. unfold in_buffer. nia. }
  unfold deref.
  destruct (Z.ltb_spec (cursor_y (g_app g) * canvas_width (g_app g)
                        + cursor_x (g_app g)) 0); [destruct Hbuf; lia|].
  rewrite lookup_store by assumption.
  destruct (decide _) as [_|Hne]; [|now contradiction Hne].
  cbn. unfold draw_cell, shown_glyph. cbn [ch color].
  destruct (Z.eqb_spec (current_glyph g) 0); [contradiction|reflexivity].
Qed.

Lemma paint_stuff_draws_the_glyph_witness :
  paint_stuff_screen corner_pen_down []
  = [attrset (COLOR_PAIR 5); mvaddch 2 0 (current_glyph corner_pen_down);
     attrset A_NORMAL].
Proof.
  apply (paint_stuff_draws_the_glyph corner_pen_down []). concrete_app.
Defined.

(** X16: with the program's state in order, the cursor is drawn, lit or
    not, at its own cell two rows down with the glyph stored there (a space
    for the character 0); showing and hiding differ only in the reverse
    video attribute, and the attributes are back to normal afterwards. *)
Theorem show_or_hide_cursor_draws_cursor_cell (show : bool) (g : Globals)
    (out : list curses_call) :
  app_ok g ->
  exists c,
    cell_at g (cursor_x (g_app g)) (cursor_y (g_app g)) = Some c /\
    show_or_hide_cursor show g out
    = out ++ [attrset (if show then COLOR_PAIR_REVERSE (color c + 1)
                       else COLOR_PAIR (color c + 1));
              mvaddch (cursor_y (g_app g) + 2) (cursor_x (g_app g))
                      (shown_glyph c);
              attrset A_NORMAL].
Proof.
  intros (Hok & Hin & Hcol & Hidx & Hbr & Hcells).
  exists (deref (canvas (g_app g))
                (cursor_y (g_app g) * canvas_width (g_app g) + cursor_x (g_app g))).
  split.
  - unfold cell_at. apply deref_in_buffer.
    destruct Hok as (Hw & Hh & Hlen), Hin as [Hx Hy]. unfold in_buffer. nia.
  - unfold show_or_hide_cursor. destruct show.
    + rewrite find_spot_inside by assumption.
      destruct (deref_ok (canvas (g_app g))
                  (cursor_y (g_app g) * canvas_width (g_app g)
                   + cursor_x (g_app g)) Hcells) as [Hc _].
      destruct Hok as (_ & Hh & _), Hin as [_ Hy]. unfold_limits.
      unfold canvas_to_screen_y, canvas_to_screen_x, STATUS_LINES_TOP.
      rewrite !int_of_small by int_range.
      do 3 f_equal. f_equal. lia.
    + rewrite find_spot_inside by assumption.
      now rewrite render_stuff_inside by assumption.
Qed.

Lemma show_or_hide_cursor_draws_cursor_cell_witness :
  exists c,
    cell_at corner_pen_down 0 0 = Some c /\
    show_or_hide_cursor true corner_pen_down []
    = [attrset (COLOR_PAIR_REVERSE (color c + 1));
       mvaddch 2 0 (shown_glyph c); attrset A_NORMAL].
Proof.
  apply (show_or_hide_cursor_draws_cursor_cell true corner_pen_down []).
  concrete_app.
Defined.

(** ** The header of a save file *)

(** X17: the header is read as [fscanf] reads two numbers, not as a fixed
    line: white space (line breaks too) may come before the width and
    between the two numbers, either number may carry a sign, the height
    may follow the width with no space when it is signed, and whatever
    follows the height on its line is skipped.  With values in range the
    header is accepted, and the file loads as the one with the canonical
    header line and the same rows does. *)
Theorem load_accepts_loose_header (ws1 sw ws2 sh junk next : list Z) :
  Forall (fun c => isspace c = true) ws1 ->
  Forall (fun c => isspace c = true) ws2 ->
  is_numeral sw = true -> is_numeral sh = true ->
  no_digit_ahead (ws2 ++ sh) ->
  no_digit_ahead junk -> NEWLINE ∉ junk ->
  0 < store_d (numeral_value sw) <= MAX_CANVAS_WIDTH ->
  0 < store_d (numeral_value sh) <= MAX_CANVAS_HEIGHT ->
  read_header (ws1 ++ sw ++ ws2 ++ sh ++ junk ++ NEWLINE :: next)
  = Some (store_d (numeral_value sw), store_d (numeral_value sh),
          junk ++ NEWLINE :: next) /\
  forall (rows : list file_row) (tail : FILE) (g : Globals),
    next = body_text rows ++ tail ->
    Z.of_nat (length rows) = store_d (numeral_value sh) ->
    Forall (row_ok (store_d (numeral_value sw))) rows ->
    load_masterpiece
      (Some (ws1 ++ sw ++ ws2 ++ sh ++ junk ++ NEWLINE :: next)) g
    = load_masterpiece
        (Some (header_line (store_d (numeral_value sw))
                           (store_d (numeral_value sh))
               ++ body_text rows)) g.
Proof.
  intros Hws1 Hws2 Hsw Hsh Hsep Hjunk Hnl Hw Hh.
  assert (Hhead :
    read_header (ws1 ++ sw ++ ws2 ++ sh ++ junk ++ NEWLINE :: next)
    = Some (store_d (numeral_value sw), store_d (numeral_value sh),
            junk ++ NEWLINE :: next)).
  { unfold read_header. rewrite fscanf_header_layout; try assumption.
    - unfold MAX_CANVAS_WIDTH, MAX_CANVAS_HEIGHT in *.
      change (2 =? 2) with true. cbn [negb orb].
      destruct (Z.leb_spec (store_d (numeral_value sw)) 0); [lia|].
      destruct (Z.leb_spec (store_d (numeral_value sh)) 0); [lia|].
      destruct (Z.gtb_spec (store_d (numeral_value sw)) 1000); [lia|].
      destruct (Z.gtb_spec (store_d (numeral_value sh)) 1000); [lia|].
      reflexivity.
    - destruct junk; [reflexivity|exact Hjunk]. }
  split; [exact Hhead|]. intros rows tail g -> Hlen Hrows.
  unfold load_masterpiece.
  rewrite (parse_rows _ _ _ _ rows tail Hhead (skip_line_app _ _ Hnl) Hlen Hrows).
  rewrite (parse_rows _ (store_d (numeral_value sw)) (store_d (numeral_value sh))
             (NEWLINE :: body_text rows) rows []); try assumption.
  - reflexivity.
  - now apply read_header_line.
  - cbn. now rewrite app_nil_r.
Qed.

Lemma load_accepts_loose_header_witness :
  read_header (text "  +3" ++ text "+2" ++ text " cells" ++ NEWLINE :: text "rest")
  = Some (3, 2, text " cells" ++ NEWLINE :: text "rest").
Proof.
  refine (proj1 (load_accepts_loose_header (text "  ") (text "+3") []
                   (text "+2") (text " cells") (text "rest")
                   _ _ _ _ _ _ _ _ _)).
  - repeat constructor.
  - constructor.
  - reflexivity.
  - reflexivity.
  - reflexivity.
  - reflexivity.
  - vm_compute. intros H. repeat (inversion H as [|? ? ? H']; subst; clear H; rename H' into H); inversion H.
  - vm_compute. split; [reflexivity|discriminate].
  - vm_compute. split; [reflexivity|discriminate].
Defined.

(** X18: peeking at a stream of characters gives the character that is
    next, or [EOF] at the end of the file, and leaves the stream exactly as
    it was. *)
Theorem sneak_peek_at_file_consumes_nothing (f : FILE) :
  Forall is_char f ->
  sneak_peek_at_file f = (hd EOF f, f) /\
  (fst (sneak_peek_at_file f) = EOF <-> f = []).
Proof.
  intros Hf. destruct f as [|c f]; [now split|].
  apply Forall_cons in Hf as [Hc _]. unfold is_char in Hc.
  unfold sneak_peek_at_file, fgetc, ungetc, EOF in *.
  destruct (Z.eqb_spec c (-1)); [lia|]. cbn.
  split; [reflexivity|]. split; [lia|discriminate].
Qed.

Lemma sneak_peek_at_file_consumes_nothing_witness :
  sneak_peek_at_file (text "7,65") = (55, text "7,65").
Proof.
  refine (proj1 (sneak_peek_at_file_consumes_nothing (text "7,65") _)).
  cbv [text map list_ascii_of_string].
  repeat (constructor; [unfold is_char; cbn; lia|]). constructor.
Defined.
